(** * The workshop leaderboard: ranking, milestone toggling, persistence

    A shallow embedding of the logic of [src/pages/Index.tsx]: the
    comparator behind [sortedTeams], the handlers [addTeam],
    [toggleMilestone] and [handleResetData], the two effects of the
    component, the initialiser that reads the teams back from
    [localStorage], and what the component shows of its state: the
    clock, the controls and the cards, with [formatDuration] and
    [getPositionEmoji].

    Conventions.
    - A JavaScript number that is an integer is a [Z]; where [NaN] can
      arise (only through [parseInt]) the type [number] is used.  Values
      are exact: the rounding of integers beyond 2^53 is not modelled.
    - A [Date] is its time value, the number of milliseconds since the
      epoch, a [Z].  Every clock reading ([new Date()], [Date.now()]) is a
      parameter [now] of the operation that takes it.
    - A string is a sequence of 8-bit characters, read as the code units
      0..255. *)

From Stdlib Require Import ZArith Lia Bool Ascii String List Sorting.Sorted.
From stdpp Require Import base decidable option list strings pretty gmap.

Open Scope Z_scope.

Set Warnings "-register-all".

(** ** String helpers of the platform *)

Module JS.

(** White space and line terminators of ECMAScript that fit in 8 bits:
    TAB, LF, VT, FF, CR, SP and NBSP. *)
Definition isWhiteSpace (c : ascii) : bool :=
  let n := N_of_ascii c in
  ((9 <=? n) && (n <=? 13) || (n =? 32) || (n =? 160))%N.

Fixpoint trimStart (s : string) : string :=
  match s with
  | String c s' => if isWhiteSpace c then trimStart s' else s
  | EmptyString => EmptyString
  end.

Fixpoint trimEnd (s : string) : string :=
  match s with
  | String c s' =>
      match trimEnd s' with
      | EmptyString => if isWhiteSpace c then EmptyString else String c EmptyString
      | r => String c r
      end
  | EmptyString => EmptyString
  end.

(** [String.prototype.trim] *)
Definition trim (s : string) : string := trimEnd (trimStart s).

(** Truthiness of a string: it is not empty. *)
Definition truthy_string (s : string) : bool :=
  match s with EmptyString => false | String _ _ => true end.

Fixpoint all_chars (p : ascii -> bool) (s : string) : bool :=
  match s with
  | String c s' => p c && all_chars p s'
  | EmptyString => true
  end.

(** A number: an integer or [NaN]. *)
Inductive number : Type :=
| NaN
| Num (z : Z).

Definition number_sub (x y : number) : number :=
  match x, y with
  | Num a, Num b => Num (a - b)
  | _, _ => NaN
  end.

(** The value of a character as a digit, for radix up to 36. *)
Definition digitValue (c : ascii) : option Z :=
  let n := Z.of_N (N_of_ascii c) in
  if (48 <=? n) && (n <=? 57) then Some (n - 48)
  else if (97 <=? n) && (n <=? 122) then Some (n - 87)
  else if (65 <=? n) && (n <=? 90) then Some (n - 55)
  else None.

(** Reads the longest prefix of [s] made of digits of the radix;
    [seen] tells whether a digit has been read already. *)
Fixpoint readDigits (radix : Z) (s : string) (acc : Z) (seen : bool) : number :=
  let stop := if seen then Num acc else NaN in
  match s with
  | String c s' =>
      match digitValue c with
      | Some d => if d <? radix then readDigits radix s' (acc * radix + d) true else stop
      | None => stop
      end
  | EmptyString => stop
  end.

Definition number_neg (x : number) : number :=
  match x with Num a => Num (- a) | NaN => NaN end.

(** [parseInt(s)] without a radix: leading white space is skipped, a sign
    is read, a [0x] or [0X] prefix selects radix 16, and the longest
    prefix of digits gives the value; no digit gives [NaN]. *)
Definition parseInt (s : string) : number :=
  let s1 := trimStart s in
  let '(negative, s2) :=
    match s1 with
    | String "-" r => (true, r)
    | String "+" r => (false, r)
    | _ => (false, s1)
    end in
  let '(radix, s3) :=
    match s2 with
    | String "0" (String "x" r) => (16, r)
    | String "0" (String "X" r) => (16, r)
    | _ => (10, s2)
    end in
  let v := readDigits radix s3 0 false in
  if negative then number_neg v else v.

(** [Number.prototype.toString] on an integer: its decimal numeral. *)
Definition toString (z : Z) : string := pretty z.

(** [Number.isSafeInteger]: the integers up to 2^53 - 1 in size, which a
    number holds exactly and which [parseInt] gives back exactly from
    their numerals.  Beyond them the platform rounds, and [parseInt]
    above, which does not, is not the platform's.  Every time value of a
    [Date], so every identifier that [addTeam] makes, is one. *)
Definition isSafeInteger (z : Z) : Prop := Z.abs z <= 2 ^ 53 - 1.

(** A numeral of a positive number starts with a digit from 1 to 9. *)
Definition leadingDigit (c : ascii) : Prop :=
  exists d : N, (0 < d < 10)%N /\ c = pretty_N_char d.

End JS.

(** ** Dates of the platform and their ISO form *)

Module JSDate.

Definition msPerDay : Z := 86400000.

(** The largest time value of a [Date], 8.64e15 ms. *)
Definition maxTime : Z := 8640000000000000.

Definition validTime (t : Z) : Prop := - maxTime <= t <= maxTime.

Definition TimeClip (t : Z) : option Z :=
  if (- maxTime <=? t) && (t <=? maxTime) then Some t else None.

(** Day of a 400-year era (counted from 1 March) to year of era, month
    and day of month; the year of a date in January or February is the
    next one. *)
Definition civilOfEraDay (doe : Z) : Z * Z * Z :=
  let yoe := (doe - doe / 1460 + doe / 36524 - doe / 146096) / 365 in
  let doy := doe - (365 * yoe + yoe / 4 - yoe / 100) in
  let mp := (5 * doy + 2) / 153 in
  let d := doy - (153 * mp + 2) / 5 + 1 in
  let m := if mp <? 10 then mp + 3 else mp - 9 in
  (if m <=? 2 then yoe + 1 else yoe, m, d).

(** Year, month and day of the day number [z] (days since the epoch). *)
Definition civilFromDays (z : Z) : Z * Z * Z :=
  let z' := z + 719468 in
  let era := z' / 146097 in
  let '(y, m, d) := civilOfEraDay (z' - era * 146097) in
  (y + era * 400, m, d).

(** The day number of a year, month and day. *)
Definition daysFromCivil (y m d : Z) : Z :=
  let y' := if m <=? 2 then y - 1 else y in
  let era := y' / 400 in
  let yoe := y' - era * 400 in
  let doy := (153 * (if 2 <? m then m - 3 else m + 9) + 2) / 5 + d - 1 in
  let doe := yoe * 365 + yoe / 4 - yoe / 100 + doy in
  era * 146097 + doe - 719468.

Definition digitChar (d : Z) : ascii := pretty_N_char (Z.to_N d).

(** The [w] lowest decimal digits of [n], most significant first. *)
Fixpoint pad (w : nat) (n : Z) : string :=
  match w with
  | O => EmptyString
  | S w' => String (digitChar (n / 10 ^ Z.of_nat w' mod 10)) (pad w' n)
  end.

Definition yearString (y : Z) : string :=
  if (0 <=? y) && (y <=? 9999) then pad 4 y
  else if y <? 0 then String "-" (pad 6 (- y))
  else String "+" (pad 6 y).

(** [Date.prototype.toISOString] on a valid time value. *)
Definition toISOString (t : Z) : string :=
  let day := t / msPerDay in
  let ms := t mod msPerDay in
  let '(y, m, d) := civilFromDays day in
  yearString y +:+ "-" +:+ pad 2 m +:+ "-" +:+ pad 2 d +:+ "T" +:+
  pad 2 (ms / 3600000) +:+ ":" +:+ pad 2 (ms / 60000 mod 60) +:+ ":" +:+
  pad 2 (ms / 1000 mod 60) +:+ "." +:+ pad 3 (ms mod 1000) +:+ "Z".

Definition decimalDigit (c : ascii) : option Z :=
  let n := Z.of_N (N_of_ascii c) in
  if (48 <=? n) && (n <=? 57) then Some (n - 48) else None.

(** Reads exactly [w] decimal digits. *)
Fixpoint readFixed (w : nat) (s : string) (acc : Z) : option (Z * string) :=
  match w with
  | O => Some (acc, s)
  | S w' =>
      match s with
      | String c r => d ← decimalDigit c; readFixed w' r (acc * 10 + d)
      | EmptyString => None
      end
  end.

Definition expect (c : ascii) (s : string) : option string :=
  match s with
  | String c' r => if Ascii.eqb c c' then Some r else None
  | EmptyString => None
  end.

Definition readYear (s : string) : option (Z * string) :=
  match s with
  | String "+" r => readFixed 6 r 0
  | String "-" r => '(y, r') ← readFixed 6 r 0;
                    if y =? 0 then None else Some (- y, r')
  | _ => readFixed 4 s 0
  end.

(** The time of day of the date-time string format: hour 24 stands for
    the end of the day and goes with zero minutes, seconds and
    milliseconds only. *)
Definition validClock (hh mm ss ms : Z) : bool :=
  (hh <=? 23) && (mm <=? 59) && (ss <=? 59) ||
  (hh =? 24) && (mm =? 0) && (ss =? 0) && (ms =? 0).

(** [Date.parse] on the complete UTC form of the date-time string format,
    [YYYY-MM-DDTHH:mm:ss.sssZ] with a four-digit or a signed six-digit
    year; any other string is unrecognised here (engines accept further
    forms). *)
Definition parse (s : string) : option Z :=
  '(y, s) ← readYear s;
  s ← expect "-" s;
  '(m, s) ← readFixed 2 s 0;
  s ← expect "-" s;
  '(d, s) ← readFixed 2 s 0;
  s ← expect "T" s;
  '(hh, s) ← readFixed 2 s 0;
  s ← expect ":" s;
  '(mm, s) ← readFixed 2 s 0;
  s ← expect ":" s;
  '(ss, s) ← readFixed 2 s 0;
  s ← expect "." s;
  '(ms, s) ← readFixed 3 s 0;
  s ← expect "Z" s;
  match s with
  | EmptyString =>
      if (1 <=? m) && (m <=? 12) && (1 <=? d) && (d <=? 31) &&
         validClock hh mm ss ms
      then TimeClip (daysFromCivil y m d * msPerDay +
                     hh * 3600000 + mm * 60000 + ss * 1000 + ms)
      else None
  | _ => None
  end.

(** The check run on every day of an era: the date is well formed and
    maps back to the day. *)
Definition eraDayOk (doe : Z) : bool :=
  let '(y, m, d) := civilOfEraDay doe in
  (1 <=? m) && (m <=? 12) && (1 <=? d) && (d <=? 31) &&
  (0 <=? y) && (y <=? 400) && (daysFromCivil y m d + 719468 =? doe).

Fixpoint allFrom (p : Z -> bool) (count : nat) (i : Z) : bool :=
  match count with
  | O => true
  | S count' => p i && allFrom p count' (i + 1)
  end.

End JSDate.

(** ** Data model *)

(** A [Date], as its time value in milliseconds. *)
Definition Date : Type := Z.

Module Milestone.
Record t : Type := mk {
  id : Z;
  title : string;
  subtitle : string;
  completed : bool;
  completedAt : option Date
}.
End Milestone.

Module Team.
Record t : Type := mk {
  id : string;
  name : string;
  milestones : list Milestone.t;
  totalTime : Z
}.
End Team.

Definition INITIAL_MILESTONES : list Milestone.t :=
  [ Milestone.mk 1 "Kickstart Together"
      "Get the project rolling with a shared vision." false None;
    Milestone.mk 2 "Prototype in Action"
      "Build a simple, working model of your idea." false None;
    Milestone.mk 3 "Catalyst Launchpad"
      "Deploy your prototype seamlessly on Zoho Catalyst." false None ].

(** ** The ranking comparator *)

(** [m.completed && m.completedAt]: a [Date] object is always truthy. *)
Definition stamped (m : Milestone.t) : bool :=
  Milestone.completed m && bool_decide (is_Some (Milestone.completedAt m)).

(** [Math.max(x, ...xs)] on at least one argument. *)
Definition Math_max (x : Z) (xs : list Z) : Z := fold_left Z.max xs x.

(** The [getTime()] of every milestone of a list whose members are all
    stamped (the [instanceof Date] test of the source always succeeds on a
    [Date]). *)
Definition completionTimes (ms : list Milestone.t) : list Z :=
  omap Milestone.completedAt ms.

Definition completedCount (t : Team.t) : Z :=
  Z.of_nat (length (List.filter Milestone.completed (Team.milestones t))).

(** The comparator given to [sort].  The two [Math.max] are taken when
    both filtered lists are not empty, which is when both lists of
    times are not empty. *)
Definition compareTeams (a b : Team.t) : JS.number :=
  let aCompleted := completedCount a in
  let bCompleted := completedCount b in
  if negb (aCompleted =? bCompleted) then JS.Num (bCompleted - aCompleted)
  else
    let aCompletedMilestones := List.filter stamped (Team.milestones a) in
    let bCompletedMilestones := List.filter stamped (Team.milestones b) in
    match completionTimes aCompletedMilestones,
          completionTimes bCompletedMilestones with
    | x :: xs, y :: ys =>
        let aLatestCompletion := Math_max x xs in
        let bLatestCompletion := Math_max y ys in
        JS.Num (aLatestCompletion - bLatestCompletion)
    | _, _ =>
        JS.number_sub (JS.parseInt (Team.id a)) (JS.parseInt (Team.id b))
    end.

(** [sort] places [a] before [b] when the comparator is negative; a
    result that is zero or [NaN] leaves the two in their order. *)
Definition isNegative (x : JS.number) : bool :=
  match x with JS.Num z => z <? 0 | JS.NaN => false end.

Definition ranksBefore (a b : Team.t) : Prop :=
  isNegative (compareTeams a b) = true.

(** [Array.prototype.sort] is stable; on a comparator that is consistent
    its result is the stable sorted arrangement, computed here by
    insertion from the right. *)
Definition isPositive (x : JS.number) : bool :=
  match x with JS.Num z => 0 <? z | JS.NaN => false end.

Fixpoint insertTeam (a : Team.t) (l : list Team.t) : list Team.t :=
  match l with
  | [] => [a]
  | b :: l' => if isPositive (compareTeams a b) then b :: insertTeam a l'
               else a :: l
  end.

Definition sortedTeams (teams : list Team.t) : list Team.t :=
  fold_right insertTeam [] teams.

(** The most recent completion of a team, when it has a stamped milestone. *)
Definition latestCompletion (t : Team.t) : option Z :=
  match completionTimes (List.filter stamped (Team.milestones t)) with
  | x :: xs => Some (Math_max x xs)
  | [] => None
  end.

(** [x] is the latest time at which a completed milestone of [t] was
    stamped. *)
Definition isLatestOf (t : Team.t) (x : Z) : Prop :=
  (exists m, In m (Team.milestones t) /\ Milestone.completed m = true /\
             Milestone.completedAt m = Some x) /\
  (forall m y, In m (Team.milestones t) -> Milestone.completed m = true ->
               Milestone.completedAt m = Some y -> y <= x).

(** The invariant of the data model on a milestone: [completedAt] is
    present exactly when [completed] holds. *)
Definition milestoneOk (m : Milestone.t) : Prop :=
  is_Some (Milestone.completedAt m) <-> Milestone.completed m = true.

Definition teamOk (t : Team.t) : Prop :=
  Forall milestoneOk (Team.milestones t).

(** ** Values in memory and in the store *)

(** A JSON document, as [JSON.parse] returns it. *)
Inductive json : Type :=
| JNull
| JBool (b : bool)
| JNumber (z : Z)
| JString (s : string)
| JArray (l : list json)
| JObject (props : list (string * json)).

(** A value in memory: what the initialiser of [teams] computes before
    TypeScript calls it a [Team[]].  An invalid [Date] is [VDate None]. *)
Inductive value : Type :=
| VUndefined
| VNull
| VBool (b : bool)
| VNumber (z : Z)
| VString (s : string)
| VDate (t : option Z)
| VArray (l : list value)
| VObject (props : list (string * value)).

(** A text kept in [localStorage], up to what [JSON.parse] makes of it:
    the empty text, a text that is not JSON, or the text of a document.
    The grammar of JSON texts is the platform's and is not modelled. *)
Inductive text : Type :=
| EmptyText
| NotJSON
| JSONText (j : json).

(** [JSON.parse]; [None] is the [SyntaxError]. *)
Definition JSON_parse (s : text) : option json :=
  match s with
  | JSONText j => Some j
  | EmptyText | NotJSON => None
  end.

Fixpoint valueOfJSON (j : json) : value :=
  match j with
  | JNull => VNull
  | JBool b => VBool b
  | JNumber z => VNumber z
  | JString s => VString s
  | JArray l => VArray (map valueOfJSON l)
  | JObject props => VObject (map (fun kv => (kv.1, valueOfJSON kv.2)) props)
  end.

(** The document that [JSON.stringify] writes for a value; [None] when
    the value is left out ([undefined]).  A [Date] is written through
    [toJSON]: its ISO string, or [null] when it is invalid; in an array
    [undefined] is written [null], in an object the property is dropped. *)
Fixpoint jsonOfValue (v : value) : option json :=
  match v with
  | VUndefined => None
  | VNull => Some JNull
  | VBool b => Some (JBool b)
  | VNumber z => Some (JNumber z)
  | VString s => Some (JString s)
  | VDate (Some t) => Some (JString (JSDate.toISOString t))
  | VDate None => Some JNull
  | VArray l => Some (JArray (map (fun x => default JNull (jsonOfValue x)) l))
  | VObject props =>
      Some (JObject (omap (fun kv => match jsonOfValue kv.2 with
                                     | Some j => Some (kv.1, j)
                                     | None => None
                                     end) props))
  end.

(** [JSON.stringify]; of [undefined] the store would keep the text
    [undefined], which is not JSON. *)
Definition JSON_stringify (v : value) : text :=
  match jsonOfValue v with
  | Some j => JSONText j
  | None => NotJSON
  end.

Definition truthy_text (s : text) : bool :=
  match s with EmptyText => false | NotJSON | JSONText _ => true end.

Definition truthy (v : value) : bool :=
  match v with
  | VUndefined | VNull => false
  | VBool b => b
  | VNumber z => negb (z =? 0)
  | VString s => JS.truthy_string s
  | VDate _ | VArray _ | VObject _ => true
  end.

Fixpoint lookupProp (k : string) (props : list (string * value)) : option value :=
  match props with
  | [] => None
  | (k', v) :: rest => if String.eqb k' k then Some v else lookupProp k rest
  end.

(** [v.k] for a key [k] that no prototype defines ([milestones],
    [completedAt], the fields of a team); [None] is the [TypeError] of
    reading a property of [null] or [undefined]. *)
Definition getField (v : value) (k : string) : option value :=
  match v with
  | VUndefined | VNull => None
  | VObject props => Some (default VUndefined (lookupProp k props))
  | VBool _ | VNumber _ | VString _ | VDate _ | VArray _ => Some VUndefined
  end.

(** The own enumerable properties that [{...v}] copies. *)
Definition spread (v : value) : list (string * value) :=
  match v with
  | VObject props => props
  | VArray l => imap (fun i x => (pretty i, x)) l
  | VString s =>
      imap (fun i c => (pretty i, VString (String c EmptyString)))
           (list_ascii_of_string s)
  | VUndefined | VNull | VBool _ | VNumber _ | VDate _ => []
  end.

(** [{...props, k: v}]: an existing key keeps its place. *)
Fixpoint setProp (k : string) (v : value) (props : list (string * value))
  : list (string * value) :=
  match props with
  | [] => [(k, v)]
  | (k', v') :: rest =>
      if String.eqb k' k then (k', v) :: rest else (k', v') :: setProp k v rest
  end.

(** [new Date(v)].  An array or an object goes through its string form in
    the platform; it is taken as unrecognised here. *)
Definition newDate (v : value) : value :=
  match v with
  | VString s => VDate (JSDate.parse s)
  | VNumber z => VDate (JSDate.TimeClip z)
  | VBool b => VDate (Some (if b then 1 else 0))
  | VNull => VDate (Some 0)
  | VDate t => VDate t
  | VUndefined | VArray _ | VObject _ => VDate None
  end.

(** ** The initialiser of [teams] *)

(** The inner callback of the initialiser,
    [m => ({...m, completedAt: m.completedAt ? new Date(m.completedAt) : undefined})];
    [None] is a [TypeError]. *)
Definition reviveMilestone (m : value) : option value :=
  c ← getField m "completedAt";
  Some (VObject (setProp "completedAt"
                   (if truthy c then newDate c else VUndefined) (spread m))).

(** The outer callback, [team => ({...team, milestones: team.milestones.map(...)})];
    only an array has a [map] to call. *)
Definition reviveTeam (team : value) : option value :=
  ms ← getField team "milestones";
  match ms with
  | VArray l =>
      l' ← mapM reviveMilestone l;
      Some (VObject (setProp "milestones" (VArray l') (spread team)))
  | _ => None
  end.

(** The body of the [try] block. *)
Definition parseTeams (saved : text) : option value :=
  parsed ← JSON_parse saved;
  match valueOfJSON parsed with
  | VArray l => l' ← mapM reviveTeam l; Some (VArray l')
  | _ => None
  end.

(** The initialiser given to [useState]: the saved teams, or the empty
    array when nothing is saved or the [try] block throws. *)
Definition loadTeams (localStorage : gmap string text) : value :=
  match localStorage !! "teams" with
  | Some saved =>
      if truthy_text saved then
        match parseTeams saved with
        | Some v => v
        | None => VArray []
        end
      else VArray []
  | None => VArray []
  end.

(** ** Teams as values *)

Definition valueOfMilestone (m : Milestone.t) : value :=
  VObject [ ("id", VNumber (Milestone.id m));
            ("title", VString (Milestone.title m));
            ("subtitle", VString (Milestone.subtitle m));
            ("completed", VBool (Milestone.completed m));
            ("completedAt", match Milestone.completedAt m with
                            | Some t => VDate (Some t)
                            | None => VUndefined
                            end) ].

Definition valueOfTeam (t : Team.t) : value :=
  VObject [ ("id", VString (Team.id t));
            ("name", VString (Team.name t));
            ("milestones", VArray (map valueOfMilestone (Team.milestones t)));
            ("totalTime", VNumber (Team.totalTime t)) ].

Definition valueOfTeams (teams : list Team.t) : value :=
  VArray (map valueOfTeam teams).

Definition asNumber (v : value) : option Z :=
  match v with VNumber z => Some z | _ => None end.
Definition asString (v : value) : option string :=
  match v with VString s => Some s | _ => None end.
Definition asBool (v : value) : option bool :=
  match v with VBool b => Some b | _ => None end.
Definition asOptionalDate (v : value) : option (option Date) :=
  match v with
  | VUndefined => Some None
  | VDate (Some t) => Some (Some t)
  | _ => None
  end.
Definition asArray (v : value) : option (list value) :=
  match v with VArray l => Some l | _ => None end.

(** The typed reading of a value: the fields of the interfaces, read by
    name; [None] when the value does not have the declared shape. *)
Definition milestoneOfValue (v : value) : option Milestone.t :=
  i ← getField v "id" ≫= asNumber;
  t ← getField v "title" ≫= asString;
  s ← getField v "subtitle" ≫= asString;
  c ← getField v "completed" ≫= asBool;
  d ← getField v "completedAt" ≫= asOptionalDate;
  Some (Milestone.mk i t s c d).

Definition teamOfValue (v : value) : option Team.t :=
  i ← getField v "id" ≫= asString;
  n ← getField v "name" ≫= asString;
  l ← getField v "milestones" ≫= asArray;
  ms ← mapM milestoneOfValue l;
  tt ← getField v "totalTime" ≫= asNumber;
  Some (Team.mk i n ms tt).

Definition teamsOfValue (v : value) : option (list Team.t) :=
  asArray v ≫= mapM teamOfValue.

(** ** The component [Index] *)

(** The state kept by the [useState] hooks. *)
Record State : Type := mkState {
  teams : list Team.t;
  newTeamName : string;
  presentationMode : bool;
  muteAudio : bool;
  timer : Date;
  timerStarted : bool;
  elapsed : Z
}.

(** The component in its environment: the state, the store, and the
    sounds played so far. *)
Record World : Type := mkWorld {
  st : State;
  localStorage : gmap string text;
  played : list string
}.

Definition setTeams (ts : list Team.t) (s : State) : State :=
  mkState ts (newTeamName s) (presentationMode s) (muteAudio s)
          (timer s) (timerStarted s) (elapsed s).
Definition setNewTeamName (n : string) (s : State) : State :=
  mkState (teams s) n (presentationMode s) (muteAudio s)
          (timer s) (timerStarted s) (elapsed s).
Definition setPresentationMode (b : bool) (s : State) : State :=
  mkState (teams s) (newTeamName s) b (muteAudio s)
          (timer s) (timerStarted s) (elapsed s).
Definition setMuteAudio (b : bool) (s : State) : State :=
  mkState (teams s) (newTeamName s) (presentationMode s) b
          (timer s) (timerStarted s) (elapsed s).
Definition setTimer (d : Date) (s : State) : State :=
  mkState (teams s) (newTeamName s) (presentationMode s) (muteAudio s)
          d (timerStarted s) (elapsed s).
Definition setTimerStarted (b : bool) (s : State) : State :=
  mkState (teams s) (newTeamName s) (presentationMode s) (muteAudio s)
          (timer s) b (elapsed s).
Definition setElapsed (e : Z) (s : State) : State :=
  mkState (teams s) (newTeamName s) (presentationMode s) (muteAudio s)
          (timer s) (timerStarted s) e.

(** [{ ...m }] *)
Definition cloneMilestone (m : Milestone.t) : Milestone.t :=
  Milestone.mk (Milestone.id m) (Milestone.title m) (Milestone.subtitle m)
               (Milestone.completed m) (Milestone.completedAt m).

(** [addTeam], at the clock reading [now]. *)
Definition addTeam (now : Z) (s : State) : State :=
  if JS.truthy_string (JS.trim (newTeamName s)) then
    let newTeam :=
      Team.mk (JS.toString now) (JS.trim (newTeamName s))
              (map cloneMilestone INITIAL_MILESTONES) 0 in
    setNewTeamName "" (setTeams (teams s ++ [newTeam]) s)
  else s.

(** The callback of the inner [map] of [toggleMilestone]. *)
Definition toggleIn (now : Date) (milestoneId : Z) (milestone : Milestone.t)
  : Milestone.t :=
  if Milestone.id milestone =? milestoneId then
    let isCompleting := negb (Milestone.completed milestone) in
    Milestone.mk (Milestone.id milestone) (Milestone.title milestone)
                 (Milestone.subtitle milestone) isCompleting
                 (if isCompleting then Some now else None)
  else milestone.

(** The total time computed by [toggleMilestone] from the updated
    milestones.  [Math.max] is taken when three milestones are stamped,
    so it has arguments. *)
Definition totalTimeOf (timer : Date) (updatedMilestones : list Milestone.t) : Z :=
  let completedMilestones := List.filter stamped updatedMilestones in
  match completionTimes completedMilestones with
  | x :: xs =>
      if (length completedMilestones =? 3)%nat then
        let startTime := timer in
        let endTime := Math_max x xs in
        endTime - startTime
      else 0
  | [] => 0
  end.

(** The callback of the outer [map] of [toggleMilestone]. *)
Definition toggleTeam (now : Date) (timer : Date) (teamId : string)
    (milestoneId : Z) (team : Team.t) : Team.t :=
  if String.eqb (Team.id team) teamId then
    let updatedMilestones := map (toggleIn now milestoneId) (Team.milestones team) in
    let totalTime := totalTimeOf timer updatedMilestones in
    Team.mk (Team.id team) (Team.name team) updatedMilestones totalTime
  else team.

(** [toggleMilestone], on the state; the sound is played by [react].  One
    clock reading serves the call: with distinct milestone identifiers a
    call stamps at most one milestone of a team. *)
Definition toggleMilestone (now : Date) (teamId : string) (milestoneId : Z)
    (s : State) : State :=
  setTeams (map (toggleTeam now (timer s) teamId milestoneId) (teams s)) s.

(** [handleResetData] *)
Definition handleResetData (w : World) : World :=
  mkWorld (setTimerStarted false (setTeams [] (st w)))
          (delete "teams" (localStorage w))
          (played w).

(** The [onClick] of the Start Timer button. *)
Definition startTimer (now : Date) (s : State) : State :=
  setTimerStarted true (setTimer now s).

(** The callback of [setInterval]. *)
Definition tick (now : Z) (s : State) : State :=
  setElapsed ((now - timer s) / 1000) s.

(** The effect on [[teams]]: the teams are written to the store. *)
Definition persistEffect (w : World) : World :=
  mkWorld (st w)
          (<["teams" := JSON_stringify (valueOfTeams (teams (st w)))]> (localStorage w))
          (played w).

(** The effect on [[timerStarted, timer]]: an interval runs while the
    timer is started; otherwise [elapsed] is set to 0. *)
Definition timerEffect (w : World) : World :=
  if timerStarted (st w) then w
  else mkWorld (setElapsed 0 (st w)) (localStorage w) (played w).

(** What the user and the clock do to the component. *)
Inductive event : Type :=
| TypeName (name : string)
| AddTeam (now : Z)
| ToggleMilestone (now : Z) (teamId : string) (milestoneId : Z)
| ResetData
| StartTimer (now : Z)
| Tick (now : Z)
| SetMute (b : bool)
| SetPresentation (b : bool).

Definition withState (f : State -> State) (w : World) : World :=
  mkWorld (f (st w)) (localStorage w) (played w).

(** One reaction: the handler, then the effects whose dependencies were
    set.  [setTeams] always receives a new array, so the effect on
    [[teams]] runs after every handler that calls it; the interval only
    ticks while the timer is started. *)
Definition react (e : event) (w : World) : World :=
  match e with
  | TypeName name => withState (setNewTeamName name) w
  | AddTeam now =>
      if JS.truthy_string (JS.trim (newTeamName (st w)))
      then persistEffect (withState (addTeam now) w)
      else w
  | ToggleMilestone now teamId milestoneId =>
      let w1 := mkWorld (toggleMilestone now teamId milestoneId (st w))
                        (localStorage w)
                        (if muteAudio (st w) then played w
                         else played w ++ ["/level-up.mp3"]) in
      persistEffect w1
  | ResetData =>
      let w1 := persistEffect (handleResetData w) in
      if timerStarted (st w) then timerEffect w1 else w1
  | StartTimer now => timerEffect (withState (startTimer now) w)
  | Tick now => if timerStarted (st w) then withState (tick now) w else w
  | SetMute b => withState (setMuteAudio b) w
  | SetPresentation b => withState (setPresentationMode b) w
  end.

(** The first render at the clock reading [now] and the effects that
    follow it; [None] when the saved teams do not have the shape of
    [Team[]]. *)
Definition mount (store : gmap string text) (now : Z) : option World :=
  ts ← teamsOfValue (loadTeams store);
  Some (timerEffect (persistEffect
          (mkWorld (mkState ts "" false false now false 0) store []))).

(** The clock readings of an event are time values of a [Date]. *)
Definition eventOk (e : event) : Prop :=
  match e with
  | AddTeam now | ToggleMilestone now _ _ | StartTimer now | Tick now =>
      JSDate.validTime now
  | _ => True
  end.

(** The worlds reached from a first visit (nothing saved) by reactions
    and reloads of the page. *)
Inductive reachable : World -> Prop :=
| reach_first store now w :
    store !! "teams" = None -> JSDate.validTime now ->
    mount store now = Some w -> reachable w
| reach_react e w :
    reachable w -> eventOk e -> reachable (react e w)
| reach_reload now w w' :
    reachable w -> JSDate.validTime now ->
    mount (localStorage w) now = Some w' -> reachable w'.

(** ** Predicates of the properties, and scenarios *)

(** Two teams that the comparator leaves in their order: they have as
    many completed milestones and, when a key applies, the same key. *)
Definition tied (a b : Team.t) : Prop :=
  completedCount a = completedCount b /\
  ((exists x, isLatestOf a x /\ isLatestOf b x) \/
   (completedCount a = 0 /\
    forall i j, JS.parseInt (Team.id a) = JS.Num i ->
                JS.parseInt (Team.id b) = JS.Num j -> i = j)).

(** No milestone of the team is completed with a time. *)
Definition unstamped (t : Team.t) : Prop :=
  forall m, In m (Team.milestones t) -> stamped m = false.

(** The milestones of a team that completed them at the given times. *)
Definition templateAt (t1 t2 t3 : option Date) : list Milestone.t :=
  zip_with (fun m t => Milestone.mk (Milestone.id m) (Milestone.title m)
                         (Milestone.subtitle m)
                         (match t with Some _ => true | None => false end) t)
           INITIAL_MILESTONES [t1; t2; t3].

(** Reactions in sequence. *)
Definition run (es : list event) (w : World) : World :=
  fold_left (fun w e => react e w) es w.

(** The world after the first render on an empty store. *)
Definition firstVisit (now : Z) : World :=
  mkWorld (mkState [] "" false false now false 0)
          (<["teams" := JSON_stringify (valueOfTeams [])]> ∅) [].

(** Two teams complete their first milestone at the same clock reading. *)
Definition tieWorld : World :=
  run [ TypeName "Alpha"; AddTeam 1000; TypeName "Beta"; AddTeam 2000;
        ToggleMilestone 3000 "1000" 1; ToggleMilestone 3000 "2000" 1 ]
      (firstVisit 0).

(** The scenario of the specification: Alpha completes milestones 1 and 2
    at 10 s and 20 s, Beta completes milestone 1 at 5 s. *)
Definition scenarioWorld : World :=
  run [ TypeName "Alpha"; AddTeam 1; TypeName "Beta"; AddTeam 2;
        StartTimer 1000;
        ToggleMilestone 6000 "2" 1; ToggleMilestone 11000 "1" 1;
        ToggleMilestone 21000 "1" 2 ]
      (firstVisit 0).

Definition scenarioAlpha : Team.t :=
  Team.mk "1" "Alpha" (templateAt (Some 11000) (Some 21000) None) 0.
Definition scenarioBeta : Team.t :=
  Team.mk "2" "Beta" (templateAt (Some 6000) None None) 0.
Definition tieAlpha : Team.t :=
  Team.mk "1000" "Alpha" (templateAt (Some 3000) None None) 0.
Definition tieBeta : Team.t :=
  Team.mk "2000" "Beta" (templateAt (Some 3000) None None) 0.

(** The completion times of a team are time values of a [Date]. *)
Definition timesValid (t : Team.t) : Prop :=
  forall m x, In m (Team.milestones t) -> Milestone.completedAt m = Some x ->
              JSDate.validTime x.




(** What a milestone keeps from the template. *)
Definition shape (m : Milestone.t) : Z * string * string :=
  (Milestone.id m, Milestone.title m, Milestone.subtitle m).

Definition fromTemplate (t : Team.t) : Prop :=
  map shape (Team.milestones t) = map shape INITIAL_MILESTONES.

Definition allCompleted (t : Team.t) : Prop :=
  forall m, In m (Team.milestones t) -> Milestone.completed m = true.

(** The total time of the team is the one [toggleMilestone] computes from
    its milestones when the session started at [start]. *)
Definition timedAt (start : Date) (t : Team.t) : Prop :=
  Team.totalTime t = totalTimeOf start (Team.milestones t).

(** What holds of every team of a reachable world. *)
Record teamInv (t : Team.t) : Prop := mkTeamInv {
  inv_ok : teamOk t;
  inv_template : fromTemplate t;
  inv_times : timesValid t;
  inv_total : Team.totalTime t <> 0 -> allCompleted t;
  inv_id : exists n, Team.id t = JS.toString n
}.

Definition worldOk (w : World) : Prop :=
  Forall teamInv (teams (st w)) /\
  localStorage w !! "teams" = Some (JSON_stringify (valueOfTeams (teams (st w)))) /\
  (timerStarted (st w) = false -> elapsed (st w) = 0).

(** The last milestone is completed at the very reading at which the
    timer was started. *)
Definition sameInstantWorld : World :=
  run [ TypeName "Alpha"; AddTeam 1000;
        ToggleMilestone 2000 "1000" 1; ToggleMilestone 3000 "1000" 2;
        StartTimer 5000 ]
      (firstVisit 0).

(** The timer is started after a team has completed its milestones. *)
Definition lateStartWorld : World :=
  run [ TypeName "Alpha"; AddTeam 1000;
        ToggleMilestone 2000 "1000" 1; ToggleMilestone 3000 "1000" 2;
        ToggleMilestone 4000 "1000" 3; StartTimer 5000 ]
      (firstVisit 0).



(** A second name is typed while the clock still reads what it read when
    the first team was added. *)
Definition sameIdWorld : World :=
  run [ TypeName "Alpha"; AddTeam 1000; TypeName "Beta" ] (firstVisit 0).

(** [toggleMilestone] on a team whose milestones do not have the
    identifier: the total time is computed again. *)
Definition retime (start : Date) (teamId : string) (team : Team.t) : Team.t :=
  if String.eqb (Team.id team) teamId then
    Team.mk (Team.id team) (Team.name team) (Team.milestones team)
            (totalTimeOf start (Team.milestones team))
  else team.

(** A team of the registry as [sort] sees it: the invariant holds and the
    identifier reads as an integer. *)
Definition rankable (t : Team.t) : Prop :=
  teamOk t /\ exists i, JS.parseInt (Team.id t) = JS.Num i.

(** [a] may be shown before [b]: [b] does not rank before [a]. *)
Definition notAfter (a b : Team.t) : Prop := ~ ranksBefore b a.

(** ** What the component shows *)

(** [formatDuration].  [Math.floor] of a quotient is [Z.div]; [%] is the
    remainder of JavaScript, with the sign of the dividend, [Z.rem]; a
    number in a template literal is its decimal numeral. *)
Definition formatDuration (milliseconds : Z) : string :=
  let seconds := milliseconds / 1000 in
  let minutes := seconds / 60 in
  let hours := minutes / 60 in
  if 0 <? hours then
    JS.toString hours +:+ "h " +:+ JS.toString (Z.rem minutes 60) +:+ "m " +:+
    JS.toString (Z.rem seconds 60) +:+ "s"
  else if 0 <? minutes then
    JS.toString minutes +:+ "m " +:+ JS.toString (Z.rem seconds 60) +:+ "s"
  else JS.toString seconds +:+ "s".

(** The three medals, as the bytes of the source file. *)
Definition medal1 : string := "ü•á".
Definition medal2 : string := "ü•à".
Definition medal3 : string := "ü•â".

(** [getPositionEmoji] *)
Definition getPositionEmoji (position : Z) : string :=
  if position =? 1 then medal1
  else if position =? 2 then medal2
  else if position =? 3 then medal3
  else "#" +:+ JS.toString position.

Fixpoint repeatChar (n : nat) (c : ascii) : string :=
  match n with
  | O => EmptyString
  | S n' => String c (repeatChar n' c)
  end.

(** [s.padStart(targetLength, fill)] for a filler of one character. *)
Definition padStart (targetLength : nat) (fill : ascii) (s : string) : string :=
  repeatChar (targetLength - String.length s) fill +:+ s.

(** The text of the clock in the header, from [elapsed]. *)
Definition clockText (elapsed : Z) : string :=
  padStart 2 "0" (JS.toString (elapsed / 3600)) +:+ ":" +:+
  padStart 2 "0" (JS.toString (Z.rem elapsed 3600 / 60)) +:+ ":" +:+
  padStart 2 "0" (JS.toString (Z.rem elapsed 60)).

(** One milestone of a card: what is shown of it and what its [onClick]
    calls [toggleMilestone] with.  The time of completion is the [Date]
    handed to [formatTime], whose text depends on the time zone of the
    browser and is not modelled. *)
Record Row : Type := mkRow {
  row_key : Z;
  row_done : bool;
  row_heading : string;
  row_subtitle : string;
  row_completedAt : option Date;
  row_onClick : string * Z
}.

(** One card of the grid. *)
Record Card : Type := mkCard {
  card_key : string;
  card_title : string;
  card_badge : option string;
  card_progress : Z;
  card_totalTime : option string;
  card_completed : bool;
  card_rows : list Row
}.

(** What a render shows: the clock, which controls are there, the cards
    and the notice of an empty registry. *)
Record View : Type := mkView {
  view_clock : option string;
  view_startTimer : bool;
  view_reset : bool;
  view_mute : bool;
  view_addTeam : bool;
  view_cards : list Card;
  view_empty : bool
}.

Definition renderRow (team : Team.t) (milestone : Milestone.t) : Row :=
  mkRow (Milestone.id milestone)
        (Milestone.completed milestone)
        ("Milestone " +:+ JS.toString (Milestone.id milestone) +:+ ": " +:+
         Milestone.title milestone)
        (Milestone.subtitle milestone)
        (if stamped milestone then Milestone.completedAt milestone else None)
        (Team.id team, Milestone.id milestone).

(** The callback of [sortedTeams.map]. *)
Definition renderCard (index : nat) (team : Team.t) : Card :=
  let position := Z.of_nat index + 1 in
  let completedCount := completedCount team in
  let isFullyCompleted := completedCount =? 4 in
  mkCard (Team.id team)
         (Team.name team)
         (if isFullyCompleted then Some (getPositionEmoji position) else None)
         completedCount
         (if isFullyCompleted && (0 <? Team.totalTime team)
          then Some (formatDuration (Team.totalTime team)) else None)
         isFullyCompleted
         (map (renderRow team) (Team.milestones team)).

(** The markup returned by the component, as far as it depends on the
    state. *)
Definition render (s : State) : View :=
  mkView (if timerStarted s then Some (clockText (elapsed s)) else None)
         (negb (presentationMode s) && negb (timerStarted s))
         (negb (presentationMode s))
         (negb (presentationMode s))
         (negb (presentationMode s))
         (imap renderCard (sortedTeams (teams s)))
         (length (teams s) =? 0)%nat.

(** The events that the rendered controls, and the interval, can raise. *)
Definition offers (s : State) (e : event) : bool :=
  match e with
  | TypeName _ | AddTeam _ => view_addTeam (render s)
  | ToggleMilestone _ teamId milestoneId =>
      existsb (fun card =>
                 existsb (fun row =>
                            String.eqb (row_onClick row).1 teamId &&
                            ((row_onClick row).2 =? milestoneId))
                         (card_rows card))
              (view_cards (render s))
  | ResetData => view_reset (render s)
  | StartTimer _ => view_startTimer (render s)
  | Tick _ => timerStarted s
  | SetMute _ => view_mute (render s)
  | SetPresentation _ => true
  end.

(** The clock reading that an event carries. *)
Definition readingOf (e : event) : option Z :=
  match e with
  | AddTeam now | ToggleMilestone now _ _ | StartTimer now | Tick now => Some now
  | _ => None
  end.

(** A session at the controls: from a first visit, the user raises events
    that the render offers, the page may be reloaded, and the clock, whose
    last reading is kept, does not go back. *)
Inductive session : Z -> World -> Prop :=
| session_first store now w :
    store !! "teams" = None -> JSDate.validTime now ->
    mount store now = Some w -> session now w
| session_act clock e w :
    session clock w -> offers (st w) e = true -> readingOf e = None ->
    session clock (react e w)
| session_timed clock now e w :
    session clock w -> offers (st w) e = true -> readingOf e = Some now ->
    clock <= now -> JSDate.validTime now ->
    session now (react e w)
| session_reload clock now w w' :
    session clock w -> clock <= now -> JSDate.validTime now ->
    mount (localStorage w) now = Some w' -> session now w'.

(** The events of a list are offered one after the other, with readings
    that are time values and do not go back; the result is the last
    reading. *)
Fixpoint offeredRun (clock : Z) (es : list event) (w : World) : option Z :=
  match es with
  | [] => Some clock
  | e :: es' =>
      if offers (st w) e then
        match readingOf e with
        | None => offeredRun clock es' (react e w)
        | Some now =>
            if (clock <=? now) && (- JSDate.maxTime <=? now) && (now <=? JSDate.maxTime)
            then offeredRun now es' (react e w)
            else None
        end
      else None
  end.

(** Reading a decimal numeral back from a text: the digits at the start
    of [s], after [acc]. *)
Fixpoint spanDigits (s : string) (acc : Z) : Z * string :=
  match s with
  | String c r =>
      match JSDate.decimalDigit c with
      | Some d => spanDigits r (acc * 10 + d)
      | None => (acc, s)
      end
  | EmptyString => (acc, EmptyString)
  end.

Definition readNumeral (s : string) : Z * string :=
  match s with
  | String "-" r => let '(n, r') := spanDigits r 0 in (- n, r')
  | _ => spanDigits s 0
  end.

(** A text at which the reading of digits stops. *)
Definition stops (t : string) : Prop := forall acc, spanDigits t acc = (acc, t).

(** A text that does not start with a sign. *)
Definition unsigned (s : string) : Prop :=
  match s with String "-" _ => False | _ => True end.

(** The seconds that a text of [formatDuration] stands for. *)
Definition readDuration (s : string) : option Z :=
  let '(n1, r1) := readNumeral s in
  match r1 with
  | String "s" EmptyString => Some n1
  | String "m" (String " " r) =>
      let '(n2, r2) := readNumeral r in
      match r2 with
      | String "s" EmptyString => Some (n1 * 60 + n2)
      | _ => None
      end
  | String "h" (String " " r) =>
      let '(n2, r2) := readNumeral r in
      match r2 with
      | String "m" (String " " r') =>
          let '(n3, r3) := readNumeral r' in
          match r3 with
          | String "s" EmptyString => Some (n1 * 3600 + n2 * 60 + n3)
          | _ => None
          end
      | _ => None
      end
  | _ => None
  end.

(** The seconds that a text of the clock stands for. *)
Definition readClock (s : string) : option Z :=
  let '(h, r1) := readNumeral s in
  match r1 with
  | String ":" r =>
      let '(m, r2) := readNumeral r in
      match r2 with
      | String ":" r' =>
          let '(sec, r3) := readNumeral r' in
          match r3 with
          | EmptyString => Some (h * 3600 + m * 60 + sec)
          | _ => None
          end
      | _ => None
      end
  | _ => None
  end.

(** What a session keeps, with the last clock reading: the timer was not
    started later, [elapsed] is not negative, and every team has a total
    time that is not negative, an identifier that is the numeral of a
    reading, and completion times that are readings; no reading is later
    than the last one. *)
Definition sessionOk (clock : Z) (w : World) : Prop :=
  timer (st w) <= clock /\ 0 <= elapsed (st w) /\
  Forall (fun t =>
            0 <= Team.totalTime t /\
            (exists n, Team.id t = JS.toString n /\ n <= clock) /\
            (forall m x, In m (Team.milestones t) ->
                         Milestone.completedAt m = Some x -> x <= clock))
         (teams (st w)).

(** The events that play the sound when it is not muted, and the events
    that leave the mute switch alone. *)
Definition isToggle (e : event) : bool :=
  match e with ToggleMilestone _ _ _ => true | _ => false end.

Definition leavesMute (e : event) : bool :=
  match e with SetMute _ => false | _ => true end.
(** What the inner callback puts at [completedAt]. *)
Definition revivedTime (v : value) : Prop :=
  v = VUndefined \/ exists t, v = VDate t.

(** ** Tactics for closed instances *)

Ltac valid_times :=
  repeat first [ apply Forall_nil | apply Forall_cons; split ];
  cbn [eventOk]; unfold JSDate.validTime, JSDate.maxTime; try lia; try exact I.

Ltac team_ok :=
  unfold teamOk; repeat first [ apply Forall_nil | apply Forall_cons; split ];
  unfold milestoneOk; cbn; split; first [ done | intros [? [=]] | eauto ].


(* ================================================================== *)
(** * Properties *)

(** ** Facts about the comparator *)

Section Comparator.

Lemma Math_max_ge_head x xs : x <= Math_max x xs.
Proof.
  revert x. induction xs as [|y ys IH]; intros x; simpl.
  - unfold Math_max. simpl. lia.
  - unfold Math_max in *. simpl. specialize (IH (Z.max x y)). lia.
Qed.

Lemma Math_max_upper x xs y : In y (x :: xs) -> y <= Math_max x xs.
Proof.
  revert x. induction xs as [|z zs IH]; intros x Hy.
  - destruct Hy as [->|[]]. apply Math_max_ge_head.
  - change (Math_max x (z :: zs)) with (Math_max (Z.max x z) zs).
    pose proof (Math_max_ge_head (Z.max x z) zs) as Hge.
    destruct Hy as [->|[->|Hy]]; [lia|lia|].
    apply IH. right. exact Hy.
Qed.

Lemma Math_max_In x xs : In (Math_max x xs) (x :: xs).
Proof.
  revert x. induction xs as [|z zs IH]; intros x.
  - left. reflexivity.
  - unfold Math_max in *. simpl fold_left.
    destruct (IH (Z.max x z)) as [H|H].
    + rewrite <- H. destruct (Z.max_spec x z) as [[_ ->]|[_ ->]]; simpl; auto.
    + right. right. exact H.
Qed.

Lemma In_completionTimes ms y :
  In y (completionTimes (List.filter stamped ms)) <->
  exists m, In m ms /\ Milestone.completed m = true /\
            Milestone.completedAt m = Some y.
Proof.
  unfold completionTimes. rewrite <- list_elem_of_In, list_elem_of_omap.
  split.
  - intros (m & Hm & Hy). apply list_elem_of_In, filter_In in Hm as [Hm Hs].
    unfold stamped in Hs. apply andb_true_iff in Hs as [Hc _]. eauto.
  - intros (m & Hm & Hc & Hy). exists m. split; [|exact Hy].
    apply list_elem_of_In, filter_In. split; [exact Hm|].
    unfold stamped. rewrite Hc, Hy. reflexivity.
Qed.

Lemma latestCompletion_Some t x :
  latestCompletion t = Some x <-> isLatestOf t x.
Proof.
  unfold latestCompletion, isLatestOf.
  pose proof (In_completionTimes (Team.milestones t)) as HIn.
  destruct (completionTimes _) as [|y ys].
  - split; [discriminate|]. intros [(m & Hm) _].
    exfalso. apply (proj2 (HIn x)). eauto.
  - split.
    + intros [= <-]. split.
      * apply HIn, Math_max_In.
      * intros m z Hm Hc Hz. apply Math_max_upper, HIn. eauto.
    + intros [Hex Hub]. f_equal.
      apply HIn in Hex.
      pose proof (Math_max_In y ys) as H1. apply HIn in H1 as (m & Hm & Hc & Hz).
      specialize (Hub m _ Hm Hc Hz).
      pose proof (Math_max_upper y ys x Hex). lia.
Qed.

Lemma latestCompletion_None t :
  latestCompletion t = None <->
  forall m, In m (Team.milestones t) -> stamped m = false.
Proof.
  unfold latestCompletion.
  pose proof (In_completionTimes (Team.milestones t)) as HIn.
  destruct (completionTimes _) as [|y ys].
  - split; [|reflexivity]. intros _ m Hm.
    destruct (stamped m) eqn:Hs; [|reflexivity]. exfalso.
    unfold stamped in Hs. apply andb_true_iff in Hs as [Hc Ht].
    apply bool_decide_eq_true in Ht as [z Hz].
    apply (proj2 (HIn z)). eauto.
  - split; [discriminate|]. intros Hall. exfalso.
    destruct (proj1 (HIn y) (or_introl eq_refl)) as (m & Hm & Hc & Hz).
    specialize (Hall m Hm). unfold stamped in Hall. rewrite Hc, Hz in Hall.
    discriminate.
Qed.

(** The comparator, by its three keys. *)
Lemma compareTeams_keys a b :
  compareTeams a b =
    if negb (completedCount a =? completedCount b)
    then JS.Num (completedCount b - completedCount a)
    else match latestCompletion a, latestCompletion b with
         | Some x, Some y => JS.Num (x - y)
         | _, _ => JS.number_sub (JS.parseInt (Team.id a)) (JS.parseInt (Team.id b))
         end.
Proof.
  unfold compareTeams, latestCompletion.
  destruct (negb _); [reflexivity|].
  destruct (completionTimes _) as [|x xs]; [reflexivity|].
  destruct (completionTimes _) as [|y ys]; reflexivity.
Qed.

End Comparator.

(** ** Decimal numerals are read back by [parseInt] *)

Section Numerals.

Import JS.

Lemma digitValue_pretty_N_char (d : N) :
  (d < 10)%N -> digitValue (pretty_N_char d) = Some (Z.of_N d).
Proof.
  intros Hd.
  assert (d = 0 \/ d = 1 \/ d = 2 \/ d = 3 \/ d = 4 \/ d = 5 \/ d = 6 \/
          d = 7 \/ d = 8 \/ d = 9)%N as Hcases by lia.
  repeat (destruct Hcases as [->|Hcases]; [reflexivity|]).
  subst. reflexivity.
Qed.

Lemma readDigits_pretty_N_go (x : N) :
  forall s seen, (0 < x)%N ->
    readDigits 10 (pretty_N_go x s) 0 seen = readDigits 10 s (Z.of_N x) true.
Proof.
  induction (N.lt_wf_0 x) as [x _ IH]. intros s seen Hx.
  rewrite pretty_N_go_step by exact Hx.
  assert (Hd : (x `mod` 10 < 10)%N) by (apply N.mod_lt; lia).
  assert (Hx10 : Z.of_N x = Z.of_N (x `div` 10) * 10 + Z.of_N (x `mod` 10)).
  { rewrite (N.div_mod x 10) at 1 by lia. lia. }
  destruct (N.eq_dec (x `div` 10)%N 0%N) as [Hz|Hnz].
  - rewrite Hz, pretty_N_go_0. simpl readDigits.
    rewrite (digitValue_pretty_N_char _ Hd).
    replace (Z.of_N (x `mod` 10) <? 10) with true by (symmetry; apply Z.ltb_lt; lia).
    rewrite Hx10, Hz. reflexivity.
  - rewrite IH; [| apply N.div_lt; lia | lia].
    simpl readDigits. rewrite (digitValue_pretty_N_char _ Hd).
    replace (Z.of_N (x `mod` 10) <? 10) with true by (symmetry; apply Z.ltb_lt; lia).
    rewrite <- Hx10. reflexivity.
Qed.

Lemma pretty_N_go_head (x : N) :
  forall s, (0 < x)%N -> exists c r, pretty_N_go x s = String c r /\ leadingDigit c.
Proof.
  induction (N.lt_wf_0 x) as [x _ IH]. intros s Hx.
  rewrite pretty_N_go_step by exact Hx.
  destruct (N.eq_dec (x `div` 10)%N 0%N) as [Hz|Hnz].
  - rewrite Hz, pretty_N_go_0. eexists _, _. split; [reflexivity|].
    exists (x `mod` 10)%N. split; [|reflexivity].
    assert (H10 : (10 <> 0)%N) by discriminate.
    pose proof (N.div_mod x 10 H10). pose proof (N.mod_lt x 10 H10). lia.
  - apply IH; [apply N.div_lt; lia | apply N.neq_0_lt_0; exact Hnz].
Qed.

Lemma parseInt_leading c r :
  leadingDigit c -> parseInt (String c r) = readDigits 10 (String c r) 0 false.
Proof.
  intros (d & Hd & ->).
  assert (d = 1 \/ d = 2 \/ d = 3 \/ d = 4 \/ d = 5 \/ d = 6 \/
          d = 7 \/ d = 8 \/ d = 9)%N as Hcases by lia.
  repeat (destruct Hcases as [->|Hcases]; [reflexivity|]).
  subst. reflexivity.
Qed.

Lemma parseInt_pretty_pos (p : positive) :
  parseInt (pretty (N.pos p)) = Num (Z.pos p).
Proof.
  unfold pretty, pretty_N. rewrite decide_False by discriminate.
  destruct (pretty_N_go_head (N.pos p) "" ltac:(lia)) as (c & r & Heq & Hc).
  rewrite Heq, (parseInt_leading _ _ Hc), <- Heq.
  rewrite readDigits_pretty_N_go by lia. reflexivity.
Qed.

Lemma parseInt_minus_leading c r :
  leadingDigit c ->
  parseInt (String "-" (String c r)) = number_neg (readDigits 10 (String c r) 0 false).
Proof.
  intros (d & Hd & ->).
  assert (d = 1 \/ d = 2 \/ d = 3 \/ d = 4 \/ d = 5 \/ d = 6 \/
          d = 7 \/ d = 8 \/ d = 9)%N as Hcases by lia.
  repeat (destruct Hcases as [->|Hcases]; [reflexivity|]).
  subst. reflexivity.
Qed.

(** [parseInt(n.toString())] is [n]. *)
Lemma parseInt_toString (z : Z) : parseInt (toString z) = Num z.
Proof.
  destruct z as [|p|p].
  - reflexivity.
  - apply parseInt_pretty_pos.
  - unfold toString, pretty, pretty_Z, pretty, pretty_positive.
    pose proof (parseInt_pretty_pos p) as Hp.
    unfold pretty, pretty_N in *. rewrite decide_False in * by discriminate.
    destruct (pretty_N_go_head (N.pos p) "" ltac:(lia)) as (c & r & Heq & Hc).
    rewrite Heq in *. rewrite (parseInt_leading _ _ Hc) in Hp.
    change ("-" +:+ String c r) with (String "-" (String c r)).
    rewrite (parseInt_minus_leading _ _ Hc), Hp. reflexivity.
Qed.

End Numerals.

(** ** An ISO date string is read back to its time value *)

Section DateRoundTrip.
Import JSDate.

Lemma decimalDigit_digitChar d :
  0 <= d < 10 -> decimalDigit (digitChar d) = Some d.
Proof.
  intros Hd.
  assert (d = 0 \/ d = 1 \/ d = 2 \/ d = 3 \/ d = 4 \/ d = 5 \/ d = 6 \/
          d = 7 \/ d = 8 \/ d = 9) as Hcases by lia.
  repeat (destruct Hcases as [->|Hcases]; [reflexivity|]).
  subst. reflexivity.
Qed.

Lemma append_String c s r : String c s +:+ r = String c (s +:+ r).
Proof. reflexivity. Qed.

Lemma append_Empty r : "" +:+ r = r.
Proof. reflexivity. Qed.

Lemma readFixed_pad w n rest :
  0 <= n -> forall acc,
  readFixed w (pad w n +:+ rest) acc =
    Some (acc * 10 ^ Z.of_nat w + n mod 10 ^ Z.of_nat w, rest).
Proof.
  intros Hn. induction w as [|w IH]; intros acc.
  - simpl. rewrite Z.mod_1_r. do 2 f_equal. lia.
  - cbn [pad readFixed]. rewrite append_String.
    rewrite decimalDigit_digitChar by (apply Z.mod_pos_bound; lia).
    cbn [mbind option_bind]. rewrite IH. do 2 f_equal.
    rewrite Nat2Z.inj_succ, Z.pow_succ_r by lia.
    rewrite (Z.mul_comm 10), Z.rem_mul_r by lia. lia.
Qed.

Lemma readYear_digit c r d :
  decimalDigit c = Some d -> readYear (String c r) = readFixed 4 (String c r) 0.
Proof.
  destruct c as [[] [] [] [] [] [] [] []]; try discriminate; reflexivity.
Qed.

Lemma allFrom_spec p count : forall i j,
  allFrom p count i = true -> i <= j < i + Z.of_nat count -> p j = true.
Proof.
  induction count as [|count IH]; intros i j Hall Hj; [lia|].
  cbn [allFrom] in Hall. apply andb_true_iff in Hall as [Hi Hrest].
  destruct (Z.eq_dec i j) as [<-|Hne]; [exact Hi|].
  apply (IH (i + 1)); [exact Hrest | lia].
Qed.

Lemma eraDays_checked : allFrom eraDayOk (Z.to_nat 146097) 0 = true.
Proof. vm_compute. reflexivity. Qed.

Lemma eraDayOk_all doe : 0 <= doe < 146097 -> eraDayOk doe = true.
Proof.
  intros Hd. apply (allFrom_spec _ _ _ _ eraDays_checked). lia.
Qed.

Lemma daysFromCivil_era y m d era :
  daysFromCivil (y + era * 400) m d = daysFromCivil y m d + era * 146097.
Proof.
  unfold daysFromCivil.
  replace (if m <=? 2 then y + era * 400 - 1 else y + era * 400)
    with ((if m <=? 2 then y - 1 else y) + era * 400) by (destruct (m <=? 2); lia).
  rewrite Z.div_add by lia.
  set (y' := if m <=? 2 then y - 1 else y).
  set (q := y' / 400).
  replace (y' + era * 400 - (q + era) * 400) with (y' - q * 400) by lia.
  lia.
Qed.

Lemma civilFromDays_spec z y m d :
  civilFromDays z = (y, m, d) ->
  daysFromCivil y m d = z /\ 1 <= m <= 12 /\ 1 <= d <= 31 /\
  (z + 719468) / 146097 * 400 <= y <= (z + 719468) / 146097 * 400 + 400.
Proof.
  unfold civilFromDays.
  set (z' := z + 719468). set (era := z' / 146097).
  assert (Hdoe : 0 <= z' - era * 146097 < 146097).
  { pose proof (Z.div_mod z' 146097 ltac:(lia)).
    pose proof (Z.mod_pos_bound z' 146097 ltac:(lia)).
    subst era. lia. }
  pose proof (eraDayOk_all _ Hdoe) as Hok. unfold eraDayOk in Hok.
  destruct (civilOfEraDay _) as [[y0 m0] d0].
  intros [= <- <- <-].
  repeat (apply andb_true_iff in Hok as [Hok ?]).
  rewrite daysFromCivil_era. lia.
Qed.

Lemma yearString_read y rest :
  -999999 <= y <= 999999 ->
  readYear (yearString y +:+ rest) = Some (y, rest).
Proof.
  intros Hy. unfold yearString.
  destruct ((0 <=? y) && (y <=? 9999)) eqn:H4.
  - apply andb_true_iff in H4 as [H0 H9].
    assert (Hpad : exists c r, pad 4 y = String c r /\ is_Some (decimalDigit c)).
    { eexists _, _. split; [reflexivity|].
      rewrite decimalDigit_digitChar by (apply Z.mod_pos_bound; lia). eauto. }
    destruct Hpad as (c & r & Hpad & [dd Hc]).
    pose proof (readFixed_pad 4 y rest ltac:(lia) 0) as Hr.
    rewrite Hpad in *. rewrite append_String in *.
    rewrite (readYear_digit _ _ _ Hc), Hr. do 2 f_equal.
    change (10 ^ Z.of_nat 4) with 10000. rewrite Z.mod_small by lia. lia.
  - destruct (y <? 0) eqn:Hneg.
    + rewrite append_String. cbn [readYear].
      rewrite readFixed_pad by lia. cbn [mbind option_bind].
      change (10 ^ Z.of_nat 6) with 1000000. rewrite Z.mod_small by lia.
      replace (0 * 1000000 + - y =? 0) with false by (symmetry; apply Z.eqb_neq; lia).
      do 2 f_equal. lia.
    + rewrite append_String. cbn [readYear].
      rewrite readFixed_pad by lia.
      change (10 ^ Z.of_nat 6) with 1000000. rewrite Z.mod_small by lia.
      do 2 f_equal.
Qed.

Lemma parse_toISOString t : validTime t -> parse (toISOString t) = Some t.
Proof.
  unfold validTime, maxTime. intros Ht.
  unfold toISOString.
  destruct (civilFromDays (t / msPerDay)) as [[y m] d] eqn:Hciv.
  apply civilFromDays_spec in Hciv as (Hdays & Hm & Hd & Hy).
  unfold msPerDay in *.
  set (ms := t mod 86400000) in *.
  assert (Hms : 0 <= ms < 86400000) by (apply Z.mod_pos_bound; lia).
  assert (Hday : -100000000 <= t / 86400000 <= 100000000)
    by (Z.div_mod_to_equations; lia).
  assert (Hera : -680 <= (t / 86400000 + 719468) / 146097 <= 689)
    by (Z.div_mod_to_equations; lia).
  assert (Hparts : 0 <= ms / 3600000 <= 23 /\ 0 <= ms / 60000 mod 60 <= 59 /\
                   0 <= ms / 1000 mod 60 <= 59 /\ 0 <= ms mod 1000 <= 999 /\
                   ms / 3600000 * 3600000 + ms / 60000 mod 60 * 60000 +
                   ms / 1000 mod 60 * 1000 + ms mod 1000 = ms)
    by (Z.div_mod_to_equations; lia).
  assert (Hsplit : t / 86400000 * 86400000 + ms = t)
    by (subst ms; Z.div_mod_to_equations; lia).
  unfold parse.
  rewrite yearString_read by lia.
  rewrite ?append_String, ?append_Empty.
  cbn [mbind option_bind expect Ascii.eqb Bool.eqb].
  repeat (rewrite readFixed_pad by lia;
          rewrite ?append_String, ?append_Empty;
          cbn [mbind option_bind expect Ascii.eqb Bool.eqb]).
  change (10 ^ Z.of_nat 2) with 100. change (10 ^ Z.of_nat 3) with 1000.
  destruct Hparts as (Hh & Hmi & Hs & Hml & Hsum).
  rewrite !Z.mul_0_l, !Z.add_0_l.
  rewrite (Z.mod_small m 100), (Z.mod_small d 100),
    (Z.mod_small (ms / 3600000) 100), (Z.mod_small (ms / 60000 mod 60) 100),
    (Z.mod_small (ms / 1000 mod 60) 100), (Z.mod_small (ms mod 1000) 1000) by lia.
  replace ((1 <=? m) && (m <=? 12) && (1 <=? d) && (d <=? 31) &&
           validClock (ms / 3600000) (ms / 60000 mod 60) (ms / 1000 mod 60)
                      (ms mod 1000)) with true
    by (symmetry; unfold validClock;
        rewrite !andb_true_iff, orb_true_iff, !andb_true_iff, !Z.leb_le; lia).
  rewrite Hdays. unfold msPerDay.
  replace (t / 86400000 * 86400000 + ms / 3600000 * 3600000 +
           ms / 60000 mod 60 * 60000 + ms / 1000 mod 60 * 1000 + ms mod 1000)
    with t by lia.
  unfold TimeClip, maxTime.
  replace ((- (8640000000000000) <=? t) && (t <=? 8640000000000000)) with true
    by (symmetry; rewrite andb_true_iff, !Z.leb_le; lia).
  reflexivity.
Qed.

End DateRoundTrip.

(** ** The comparator as an order *)

Section Ranking.

Lemma ranksBefore_keys a b :
  ranksBefore a b <->
  (completedCount b < completedCount a \/
   (completedCount a = completedCount b /\
    match latestCompletion a, latestCompletion b with
    | Some x, Some y => x < y
    | _, _ => exists i j, JS.parseInt (Team.id a) = JS.Num i /\
                          JS.parseInt (Team.id b) = JS.Num j /\ i < j
    end)).
Proof.
  unfold ranksBefore. rewrite compareTeams_keys.
  destruct (Z.eqb_spec (completedCount a) (completedCount b)) as [Heq|Hne];
    cbn [negb].
  - destruct (latestCompletion a) as [x|], (latestCompletion b) as [y|];
      cbn [isNegative].
    1: { rewrite Z.ltb_lt. split; [intros; right; split; [done|lia] | intros [?|[_ ?]]; lia]. }
    all: destruct (JS.parseInt (Team.id a)) as [|i], (JS.parseInt (Team.id b)) as [|j];
      cbn [JS.number_sub isNegative]; rewrite ?Z.ltb_lt.
    all: split;
      [ intros H;
        first [ discriminate H
              | right; split; [done|]; exists i, j; repeat split; lia ]
      | intros [H|[_ (i' & j' & Hi & Hj & H)]];
        first [ lia | discriminate Hi | discriminate Hj | simplify_eq; lia ] ].
  - cbn [isNegative]. rewrite Z.ltb_lt. split; [intros; left; lia | intros [?|[? _]]; [lia|done]].
Qed.

(** Under the invariant, a team has a stamped milestone exactly when it
    has a completed one. *)
Lemma latestCompletion_count t :
  teamOk t -> (latestCompletion t = None <-> completedCount t = 0).
Proof.
  intros Hok. rewrite latestCompletion_None. unfold completedCount.
  unfold teamOk in Hok. rewrite Forall_forall in Hok.
  split.
  - intros Hall.
    destruct (List.filter Milestone.completed (Team.milestones t)) as [|m l] eqn:Hf;
      [done|exfalso].
    assert (In m (List.filter Milestone.completed (Team.milestones t))) as Hin
      by (rewrite Hf; left; done).
    apply filter_In in Hin as [Hm Hc].
    specialize (Hall m Hm). unfold stamped in Hall. rewrite Hc in Hall.
    apply bool_decide_eq_false in Hall.
    apply Hall, (Hok m); [by apply list_elem_of_In|done].
  - intros Hlen m Hm. unfold stamped.
    destruct (Milestone.completed m) eqn:Hc; [|done]. exfalso.
    assert (In m (List.filter Milestone.completed (Team.milestones t))) as Hin
      by (apply filter_In; done).
    destruct (List.filter _ _); [done|]. cbn in Hlen. lia.
Qed.

Lemma ranksBefore_asym a b : ranksBefore a b -> ~ ranksBefore b a.
Proof.
  rewrite !ranksBefore_keys. intros [H1|[He H1]] [H2|[He' H2]]; try lia.
  destruct (latestCompletion a), (latestCompletion b); try lia;
    destruct H1 as (i & j & Hi & Hj & ?), H2 as (i' & j' & Hi' & Hj' & ?);
    assert (i = j') by congruence; assert (j = i') by congruence; lia.
Qed.

Lemma ranksBefore_trans a b c :
  teamOk a -> teamOk b -> teamOk c ->
  ranksBefore a b -> ranksBefore b c -> ranksBefore a c.
Proof.
  intros Ha Hb Hc. rewrite !ranksBefore_keys.
  pose proof (latestCompletion_count a Ha) as Ca.
  pose proof (latestCompletion_count b Hb) as Cb.
  pose proof (latestCompletion_count c Hc) as Cc.
  intros [H1|[He1 H1]] [H2|[He2 H2]]; [left; lia..|].
  right. split; [lia|].
  destruct (latestCompletion a) as [x|], (latestCompletion b) as [y|],
    (latestCompletion c) as [z|]; try lia.
  all: try (exfalso; destruct Ca as [Ca1 Ca2], Cb as [Cb1 Cb2], Cc as [Cc1 Cc2];
            first [ specialize (Ca1 eq_refl) | specialize (Cb1 eq_refl)
                  | specialize (Cc1 eq_refl) ];
            first [ discriminate (Ca2 ltac:(lia)) | discriminate (Cb2 ltac:(lia))
                  | discriminate (Cc2 ltac:(lia)) ]).
  destruct H1 as (i & j & Hi & Hj & ?), H2 as (j' & k & Hj' & Hk & ?).
  assert (j = j') by congruence. exists i, k. repeat split; [done..|lia].
Qed.

Lemma tied_or_ranked a b :
  teamOk a -> teamOk b -> ranksBefore a b \/ ranksBefore b a \/ tied a b.
Proof.
  intros Ha Hb. rewrite !ranksBefore_keys. unfold tied.
  pose proof (latestCompletion_count a Ha) as Ca.
  pose proof (latestCompletion_count b Hb) as Cb.
  destruct (Z.lt_trichotomy (completedCount a) (completedCount b)) as [?|[He|?]];
    [right; left; left; lia| |left; left; lia].
  pose proof (latestCompletion_Some a) as La.
  pose proof (latestCompletion_Some b) as Lb.
  destruct (latestCompletion a) as [x|], (latestCompletion b) as [y|].
  - destruct (Z.lt_trichotomy x y) as [?|[->|?]].
    + left. right. done.
    + right. right. split; [done|]. left. exists y. split; [by apply La|by apply Lb].
    + right. left. right. split; [done|]. done.
  - exfalso. destruct Ca as [_ Ca], Cb as [Cb _]. specialize (Cb eq_refl).
    discriminate (Ca ltac:(lia)).
  - exfalso. destruct Ca as [Ca _], Cb as [_ Cb]. specialize (Ca eq_refl).
    discriminate (Cb ltac:(lia)).
  - destruct Ca as [Ca _]. specialize (Ca eq_refl).
    destruct (JS.parseInt (Team.id a)) as [|i] eqn:Hi.
    { right. right. split; [done|]. right. split; [done|]. intros ?? [=]. }
    destruct (JS.parseInt (Team.id b)) as [|j] eqn:Hj.
    { right. right. split; [done|]. right. split; [done|]. intros ?? _ [=]. }
    destruct (Z.lt_trichotomy i j) as [?|[->|?]].
    + left. right. split; [done|]. eauto.
    + right. right. split; [done|]. right. split; [done|]. intros ?? [= <-] [= <-]. done.
    + right. left. right. split; [done|]. eauto.
Qed.

Lemma tied_unranked a b : tied a b -> ~ ranksBefore a b.
Proof.
  intros [He Hkey]. rewrite ranksBefore_keys. intros [?|[_ H]]; [lia|].
  destruct Hkey as [(x & Hxa & Hxb)|[H0 Hid]].
  - apply latestCompletion_Some in Hxa, Hxb. rewrite Hxa, Hxb in H. lia.
  - destruct (latestCompletion a) as [x|] eqn:La.
    + destruct (latestCompletion b) as [y|] eqn:Lb.
      * apply latestCompletion_Some in La as [(m & Hm & Hc & _) _].
        unfold completedCount in H0.
        assert (In m (List.filter Milestone.completed (Team.milestones a))) as Hin
          by (apply filter_In; done).
        destruct (List.filter _ _); [done|]. cbn in H0. lia.
      * destruct H as (i & j & Hi & Hj & ?). specialize (Hid i j Hi Hj). lia.
    + assert (exists i j, JS.parseInt (Team.id a) = JS.Num i /\
                          JS.parseInt (Team.id b) = JS.Num j /\ i < j)
        as (i & j & Hi & Hj & ?) by (destruct (latestCompletion b); exact H).
      specialize (Hid i j Hi Hj). lia.
Qed.

Lemma tied_sym a b : tied a b -> tied b a.
Proof.
  intros [He [(x & Ha & Hb)|[H0 Hid]]]; (split; [done|]).
  - left. eauto.
  - right. split; [lia|]. intros i j Hi Hj. symmetry. eauto.
Qed.

End Ranking.


(** ** Worlds reached by reactions *)

Section Worlds.

Lemma mount_first_visit now : mount ∅ now = Some (firstVisit now).
Proof. reflexivity. Qed.

Lemma reachable_first_visit now : JSDate.validTime now -> reachable (firstVisit now).
Proof.
  intros Hnow. apply (reach_first ∅ now); [done|done|]. apply mount_first_visit.
Qed.

Lemma reachable_run es : forall w,
  reachable w -> Forall eventOk es -> reachable (run es w).
Proof.
  induction es as [|e es IH]; intros w Hw Hes; [exact Hw|].
  inversion Hes; subst. apply IH; [|done]. by apply reach_react.
Qed.

End Worlds.

(** A time value of a [Date] is a safe integer. *)
Lemma validTime_isSafeInteger t : JSDate.validTime t -> JS.isSafeInteger t.
Proof. unfold JSDate.validTime, JSDate.maxTime, JS.isSafeInteger. lia. Qed.

(** C2.  For every pair of teams the comparator orders them (1) by the
    number of completed milestones, the larger first; (2) when the numbers
    are equal and each team has a completed milestone with a time, by the
    latest of these times, the earlier first; (3) when the numbers are
    equal and a team has no such milestone, by the identifiers read as
    integers, the smaller first: for identifiers that are the numerals of
    safe integers, as the numerals of clock readings are, the team with
    the smaller one ranks first. *)
Theorem compareTeams_three_keys (a b : Team.t) :
  (completedCount a <> completedCount b ->
     (ranksBefore a b <-> completedCount b < completedCount a)) /\
  (completedCount a = completedCount b ->
     forall x y, isLatestOf a x -> isLatestOf b y ->
       (ranksBefore a b <-> x < y)) /\
  (completedCount a = completedCount b -> unstamped a \/ unstamped b ->
     compareTeams a b =
       JS.number_sub (JS.parseInt (Team.id a)) (JS.parseInt (Team.id b)) /\
     forall i j, JS.isSafeInteger i -> JS.isSafeInteger j ->
       Team.id a = JS.toString i -> Team.id b = JS.toString j ->
       (ranksBefore a b <-> i < j)).
Proof.
  split; [|split].
  - intros Hne. rewrite ranksBefore_keys. split; [intros [?|[? _]]; [done|lia]|auto].
  - intros He x y Hx%latestCompletion_Some Hy%latestCompletion_Some.
    rewrite ranksBefore_keys, Hx, Hy. split; [intros [?|[_ ?]]; [lia|done]|auto].
  - intros He Hun.
    assert (Hcmp : compareTeams a b =
      JS.number_sub (JS.parseInt (Team.id a)) (JS.parseInt (Team.id b))).
    { rewrite compareTeams_keys, He, Z.eqb_refl. cbn [negb].
      destruct Hun as [Hun|Hun]; apply latestCompletion_None in Hun; rewrite Hun;
        [done|by destruct (latestCompletion a)]. }
    split; [exact Hcmp|]. intros i j _ _ Hi Hj. unfold ranksBefore.
    rewrite Hcmp, Hi, Hj, !parseInt_toString. cbn. rewrite Z.ltb_lt. lia.
Qed.

Lemma scenarioWorld_teams :
  teams (st scenarioWorld) = [scenarioAlpha; scenarioBeta].
Proof. vm_compute. reflexivity. Qed.

Lemma untouched_unstamped id name : unstamped (Team.mk id name INITIAL_MILESTONES 0).
Proof.
  intros m Hm. cbn in Hm.
  repeat (destruct Hm as [<-|Hm]; [reflexivity|]). destruct Hm.
Qed.

Lemma compareTeams_three_keys_witness :
  (completedCount scenarioAlpha <> completedCount scenarioBeta /\
   (ranksBefore scenarioAlpha scenarioBeta <->
    completedCount scenarioBeta < completedCount scenarioAlpha)) /\
  (completedCount (Team.mk "1000" "Alpha" INITIAL_MILESTONES 0)
   = completedCount (Team.mk "2000" "Beta" INITIAL_MILESTONES 0) /\
   unstamped (Team.mk "1000" "Alpha" INITIAL_MILESTONES 0) /\
   JS.isSafeInteger 1000 /\ JS.isSafeInteger 2000 /\
   (ranksBefore (Team.mk "1000" "Alpha" INITIAL_MILESTONES 0)
                (Team.mk "2000" "Beta" INITIAL_MILESTONES 0) <-> 1000 < 2000)).
Proof.
  assert (Hne : completedCount scenarioAlpha <> completedCount scenarioBeta)
    by (vm_compute; discriminate).
  assert (He : completedCount (Team.mk "1000" "Alpha" INITIAL_MILESTONES 0)
               = completedCount (Team.mk "2000" "Beta" INITIAL_MILESTONES 0))
    by reflexivity.
  assert (Hun : unstamped (Team.mk "1000" "Alpha" INITIAL_MILESTONES 0))
    by apply untouched_unstamped.
  assert (H1 : JS.isSafeInteger 1000) by (unfold JS.isSafeInteger; lia).
  assert (H2 : JS.isSafeInteger 2000) by (unfold JS.isSafeInteger; lia).
  split.
  - split; [exact Hne|].
    exact (proj1 (compareTeams_three_keys scenarioAlpha scenarioBeta) Hne).
  - split; [exact He|]. split; [exact Hun|]. split; [exact H1|]. split; [exact H2|].
    exact (proj2 (proj2 (proj2 (compareTeams_three_keys
                                  (Team.mk "1000" "Alpha" INITIAL_MILESTONES 0)
                                  (Team.mk "2000" "Beta" INITIAL_MILESTONES 0)))
                         He (or_introl Hun))
                 1000 2000 H1 H2 eq_refl eq_refl).
Defined.

(** C1, as the code has it.  On teams that satisfy the invariant of the
    data model the comparator is a strict partial order, and two teams are
    ranked one before the other unless they are tied: as many completed
    milestones and the same latest completion time or, with no completed
    milestone, identifiers that are not two different integers.  Tied teams
    are left in their order. *)
Theorem ranking_strict_order (a b c : Team.t) :
  teamOk a -> teamOk b -> teamOk c ->
  ~ ranksBefore a a /\
  (ranksBefore a b -> ~ ranksBefore b a) /\
  (ranksBefore a b -> ranksBefore b c -> ranksBefore a c) /\
  (ranksBefore a b \/ ranksBefore b a \/ tied a b) /\
  (tied a b -> ~ ranksBefore a b /\ ~ ranksBefore b a).
Proof.
  intros Ha Hb Hc. repeat split.
  - intros H. exact (ranksBefore_asym _ _ H H).
  - apply ranksBefore_asym.
  - by apply ranksBefore_trans.
  - by apply tied_or_ranked.
  - by apply tied_unranked.
  - by apply tied_unranked, tied_sym.
Qed.

Lemma ranking_strict_order_witness :
  teamOk scenarioAlpha /\ teamOk scenarioBeta /\ teamOk tieBeta /\
  (ranksBefore scenarioAlpha scenarioBeta -> ranksBefore scenarioBeta tieBeta ->
   ranksBefore scenarioAlpha tieBeta).
Proof.
  assert (Ha : teamOk scenarioAlpha) by team_ok.
  assert (Hb : teamOk scenarioBeta) by team_ok.
  assert (Hc : teamOk tieBeta) by team_ok.
  split; [exact Ha|split; [exact Hb|split; [exact Hc|]]].
  exact (proj1 (proj2 (proj2 (ranking_strict_order _ _ _ Ha Hb Hc)))).
Defined.

Lemma tieWorld_teams : teams (st tieWorld) = [tieAlpha; tieBeta].
Proof. vm_compute. reflexivity. Qed.

(** C1 fails as stated: two teams that complete their first milestone at
    the same clock reading are different and neither ranks before the
    other. *)
Lemma ranking_not_total :
  reachable tieWorld /\ teams (st tieWorld) = [tieAlpha; tieBeta] /\
  tieAlpha <> tieBeta /\
  ~ ranksBefore tieAlpha tieBeta /\ ~ ranksBefore tieBeta tieAlpha.
Proof.
  split; [|split; [|split; [|split]]].
  - apply reachable_run; [apply reachable_first_visit|]; valid_times.
  - exact tieWorld_teams.
  - discriminate.
  - vm_compute. discriminate.
  - vm_compute. discriminate.
Qed.

(** ** What is saved is read back *)

Section RoundTrip.

Lemma toISOString_truthy t :
  JSDate.validTime t -> JS.truthy_string (JSDate.toISOString t) = true.
Proof.
  intros Ht%parse_toISOString.
  destruct (JSDate.toISOString t); [discriminate Ht|reflexivity].
Qed.

Lemma mapM_map_Some {A B C} (f : B -> option C) (g : A -> B) (h : A -> C) l :
  (forall x, In x l -> f (g x) = Some (h x)) ->
  mapM f (map g l) = Some (map h l).
Proof.
  induction l as [|x l IH]; intros Hall; [reflexivity|].
  cbn. rewrite (Hall x (or_introl eq_refl)). cbn.
  rewrite IH by (intros; apply Hall; by right). reflexivity.
Qed.

Lemma reviveMilestone_saved m :
  (forall x, Milestone.completedAt m = Some x -> JSDate.validTime x) ->
  reviveMilestone (valueOfJSON (default JNull (jsonOfValue (valueOfMilestone m))))
  = Some (valueOfMilestone m).
Proof.
  destruct m as [i t s c [d|]]; cbn [Milestone.completedAt]; intros Hd.
  - specialize (Hd d eq_refl).
    unfold reviveMilestone, valueOfMilestone.
    cbn -[JSDate.toISOString JSDate.parse].
    rewrite (toISOString_truthy d Hd), (parse_toISOString d Hd). reflexivity.
  - reflexivity.
Qed.

Lemma reviveTeam_saved t :
  timesValid t ->
  reviveTeam (valueOfJSON (default JNull (jsonOfValue (valueOfTeam t))))
  = Some (valueOfTeam t).
Proof.
  destruct t as [i n ms tt]. unfold timesValid. cbn [Team.milestones]. intros Hv.
  unfold reviveTeam, valueOfTeam.
  cbn -[valueOfMilestone reviveMilestone].
  rewrite !map_map.
  rewrite (mapM_map_Some reviveMilestone _ valueOfMilestone).
  - reflexivity.
  - intros m Hm. apply reviveMilestone_saved. intros x. by apply Hv.
Qed.

Lemma parseTeams_saved ts :
  Forall timesValid ts ->
  parseTeams (JSON_stringify (valueOfTeams ts)) = Some (valueOfTeams ts).
Proof.
  intros Hv. unfold parseTeams, JSON_stringify, valueOfTeams.
  cbn -[valueOfTeam reviveTeam]. rewrite !map_map.
  rewrite (mapM_map_Some reviveTeam _ valueOfTeam); [reflexivity|].
  intros t Ht. apply reviveTeam_saved.
  rewrite List.Forall_forall in Hv. by apply Hv.
Qed.


Lemma milestoneOfValue_valueOfMilestone m :
  milestoneOfValue (valueOfMilestone m) = Some m.
Proof. destruct m as [i t s c [d|]]; reflexivity. Qed.

Lemma teamOfValue_valueOfTeam t : teamOfValue (valueOfTeam t) = Some t.
Proof.
  destruct t as [i n ms tt]. unfold teamOfValue, valueOfTeam.
  cbn -[valueOfMilestone milestoneOfValue].
  rewrite (mapM_map_Some milestoneOfValue valueOfMilestone (fun m => m)).
  - rewrite map_id. reflexivity.
  - intros m _. apply milestoneOfValue_valueOfMilestone.
Qed.

Lemma teamsOfValue_valueOfTeams ts : teamsOfValue (valueOfTeams ts) = Some ts.
Proof.
  unfold teamsOfValue, valueOfTeams. cbn -[teamOfValue valueOfTeam].
  rewrite (mapM_map_Some teamOfValue valueOfTeam (fun t => t)).
  - rewrite map_id. reflexivity.
  - intros t _. apply teamOfValue_valueOfTeam.
Qed.

(** Nothing saved, or a [try] block that throws, gives the empty array. *)
Lemma loadTeams_nothing_saved store :
  store !! "teams" = None -> loadTeams store = VArray [].
Proof. intros H. unfold loadTeams. rewrite H. reflexivity. Qed.

Lemma loadTeams_throws store saved :
  store !! "teams" = Some saved -> parseTeams saved = None ->
  loadTeams store = VArray [].
Proof.
  intros H Hp. unfold loadTeams. rewrite H, Hp. by destruct (truthy_text saved).
Qed.








End RoundTrip.




(** ** Toggling a milestone *)

Section Toggle.

Lemma toggleIn_shape now mid m : shape (toggleIn now mid m) = shape m.
Proof. unfold toggleIn. by destruct (_ =? _). Qed.

Lemma toggleIn_other now mid m :
  Milestone.id m <> mid -> toggleIn now mid m = m.
Proof. intros Hne. unfold toggleIn. by rewrite (proj2 (Z.eqb_neq _ _) Hne). Qed.

Lemma toggleIn_hit now mid m :
  Milestone.id m = mid ->
  Milestone.completed (toggleIn now mid m) = negb (Milestone.completed m) /\
  Milestone.completedAt (toggleIn now mid m)
  = if Milestone.completed m then None else Some now.
Proof.
  intros He. unfold toggleIn. rewrite (proj2 (Z.eqb_eq _ _) He).
  by destruct (Milestone.completed m).
Qed.

Lemma toggleIn_ok now mid m : milestoneOk m -> milestoneOk (toggleIn now mid m).
Proof.
  intros Hok. unfold toggleIn. destruct (_ =? _); [|exact Hok].
  unfold milestoneOk. cbn. destruct (Milestone.completed m); cbn.
  - split; [intros [? [=]]|discriminate].
  - split; eauto.
Qed.

Lemma toggleIn_time now mid m x :
  Milestone.completedAt (toggleIn now mid m) = Some x ->
  x = now \/ Milestone.completedAt m = Some x.
Proof.
  unfold toggleIn. destruct (_ =? _); [|by right]. cbn.
  destruct (negb _); [|discriminate]. intros [= <-]. by left.
Qed.

Lemma toggleTeam_other now start tid mid t :
  Team.id t <> tid -> toggleTeam now start tid mid t = t.
Proof.
  intros Hne. unfold toggleTeam. by rewrite (proj2 (String.eqb_neq _ _) Hne).
Qed.

Lemma toggleTeam_hit now start tid mid t :
  Team.id t = tid ->
  toggleTeam now start tid mid t =
    Team.mk (Team.id t) (Team.name t)
            (map (toggleIn now mid) (Team.milestones t))
            (totalTimeOf start (map (toggleIn now mid) (Team.milestones t))).
Proof.
  intros He. unfold toggleTeam. by rewrite (proj2 (String.eqb_eq _ _) He).
Qed.

Lemma toggleTeam_id now start tid mid t :
  Team.id (toggleTeam now start tid mid t) = Team.id t.
Proof. unfold toggleTeam. by destruct (String.eqb _ _). Qed.

Lemma toggleTeam_timedAt now start tid mid t :
  Team.id t = tid -> timedAt start (toggleTeam now start tid mid t).
Proof. intros He. by rewrite (toggleTeam_hit _ _ _ _ _ He). Qed.

(** The total time in terms of the latest completion. *)
Lemma timedAt_latest start t :
  timedAt start t ->
  Team.totalTime t =
    match latestCompletion t with
    | Some x =>
        if (length (List.filter stamped (Team.milestones t)) =? 3)%nat
        then x - start else 0
    | None => 0
    end.
Proof.
  unfold timedAt, totalTimeOf, latestCompletion. intros ->.
  by destruct (completionTimes _).
Qed.

Lemma filter_all_length {A} (p : A -> bool) l :
  length (List.filter p l) = length l <-> forall x, In x l -> p x = true.
Proof.
  induction l as [|x l IH]; cbn; [done|].
  pose proof (List.filter_length_le p l) as Hle.
  destruct (p x) eqn:Hp; cbn.
  - split.
    + intros Hl y [<-|Hy]; [done|]. apply IH; [lia|done].
    + intros Hall. f_equal. apply IH. eauto.
  - split; [lia|]. intros Hall. specialize (Hall x (or_introl eq_refl)). congruence.
Qed.

Lemma fromTemplate_length t :
  fromTemplate t -> length (Team.milestones t) = 3%nat.
Proof.
  unfold fromTemplate. intros H. apply (f_equal length) in H.
  by rewrite !length_map in H.
Qed.

(** With three milestones under the invariant, three are stamped exactly
    when all are completed. *)
Lemma stamped_three_iff t :
  teamOk t -> fromTemplate t ->
  length (List.filter stamped (Team.milestones t)) = 3%nat <-> allCompleted t.
Proof.
  intros Hok Ht. rewrite <- (fromTemplate_length t Ht), filter_all_length.
  unfold allCompleted, teamOk in *. rewrite List.Forall_forall in Hok.
  split; intros H m Hm.
  - specialize (H m Hm). unfold stamped in H. by apply andb_true_iff in H as [? _].
  - unfold stamped. rewrite (H m Hm). cbn. apply bool_decide_eq_true.
    apply (Hok m Hm). by apply H.
Qed.

End Toggle.

(** ** The invariant of reachable worlds *)

Section Invariants.

Lemma timedAt_nonzero start t :
  timedAt start t -> Team.totalTime t <> 0 ->
  length (List.filter stamped (Team.milestones t)) = 3%nat /\
  exists x, isLatestOf t x /\ Team.totalTime t = x - start.
Proof.
  intros Ht%timedAt_latest Hnz. rewrite Ht in Hnz |- *.
  destruct (latestCompletion t) as [x|] eqn:Hl; [|done].
  destruct (Nat.eqb_spec (length (List.filter stamped (Team.milestones t))) 3)
    as [H3|H3]; [|done].
  split; [done|]. exists x. split; [by apply latestCompletion_Some|done].
Qed.

Lemma timedAt_three start t :
  timedAt start t ->
  length (List.filter stamped (Team.milestones t)) = 3%nat ->
  exists x, isLatestOf t x /\ Team.totalTime t = x - start.
Proof.
  intros Ht%timedAt_latest H3. rewrite Ht, H3. cbn.
  destruct (latestCompletion t) as [x|] eqn:Hl.
  - exists x. split; [by apply latestCompletion_Some|done].
  - exfalso. rewrite latestCompletion_None in Hl.
    destruct (List.filter stamped (Team.milestones t)) as [|m l] eqn:Hf; [done|].
    assert (In m (List.filter stamped (Team.milestones t))) as Hin
      by (rewrite Hf; by left).
    apply filter_In in Hin as [Hin Hs]. rewrite (Hl m Hin) in Hs. done.
Qed.

Lemma toggleTeam_ok now start tid mid t :
  teamOk t -> teamOk (toggleTeam now start tid mid t).
Proof.
  intros Hok.
  destruct (String.eqb_spec (Team.id t) tid) as [He|Hne];
    [|by rewrite (toggleTeam_other _ _ _ _ _ Hne)].
  rewrite (toggleTeam_hit _ _ _ _ _ He). unfold teamOk in *. cbn.
  rewrite List.Forall_forall in *. intros m' (m & <- & Hm)%in_map_iff.
  apply toggleIn_ok. by apply Hok.
Qed.

Lemma toggleTeam_template now start tid mid t :
  fromTemplate t -> fromTemplate (toggleTeam now start tid mid t).
Proof.
  intros Htpl.
  destruct (String.eqb_spec (Team.id t) tid) as [He|Hne];
    [|by rewrite (toggleTeam_other _ _ _ _ _ Hne)].
  rewrite (toggleTeam_hit _ _ _ _ _ He). unfold fromTemplate in *.
  cbn [Team.milestones].
  rewrite map_map, <- Htpl. apply map_ext. intros m. apply toggleIn_shape.
Qed.

Lemma toggleTeam_inv now start tid mid t :
  JSDate.validTime now -> teamInv t -> teamInv (toggleTeam now start tid mid t).
Proof.
  intros Hnow [Hok Htpl Htimes Htotal Hnum].
  pose proof (toggleTeam_ok now start tid mid t Hok) as Hok'.
  pose proof (toggleTeam_template now start tid mid t Htpl) as Htpl'.
  destruct (String.eqb_spec (Team.id t) tid) as [He|Hne];
    [|rewrite (toggleTeam_other _ _ _ _ _ Hne); by constructor].
  constructor; [exact Hok'|exact Htpl'| | |by rewrite toggleTeam_id].
  - rewrite (toggleTeam_hit _ _ _ _ _ He). unfold timesValid in *. cbn.
    intros m' x (m & <- & Hm)%in_map_iff [->|Hx]%toggleIn_time; [done|].
    by apply (Htimes m).
  - intros Hnz.
    destruct (timedAt_nonzero start _ (toggleTeam_timedAt now start tid mid t He) Hnz)
      as [H3 _].
    by apply stamped_three_iff.
Qed.

Lemma newTeam_inv now name :
  teamInv (Team.mk (JS.toString now) name (map cloneMilestone INITIAL_MILESTONES) 0).
Proof.
  constructor.
  - unfold teamOk, milestoneOk. cbn.
    repeat (apply Forall_cons; split; [cbn; split; [intros [? [=]]|discriminate]|]).
    by apply Forall_nil.
  - reflexivity.
  - intros m x Hm Hx. cbn in Hm.
    repeat (destruct Hm as [<-|Hm]; [discriminate Hx|]). destruct Hm.
  - done.
  - by exists now.
Qed.

Lemma loadTeams_mirror store ts :
  Forall timesValid ts ->
  store !! "teams" = Some (JSON_stringify (valueOfTeams ts)) ->
  loadTeams store = valueOfTeams ts.
Proof.
  intros Hv Hs. unfold loadTeams. rewrite Hs, (parseTeams_saved ts Hv). reflexivity.
Qed.

Lemma mount_teams store now ts :
  teamsOfValue (loadTeams store) = Some ts ->
  mount store now =
    Some (mkWorld (mkState ts "" false false now false 0)
                  (<["teams" := JSON_stringify (valueOfTeams ts)]> store) []).
Proof. intros H. unfold mount. rewrite H. reflexivity. Qed.

Lemma mount_worldOk store now ts w :
  Forall teamInv ts -> teamsOfValue (loadTeams store) = Some ts ->
  mount store now = Some w -> worldOk w /\ teams (st w) = ts.
Proof.
  intros Hts Hl Hm. rewrite (mount_teams _ _ _ Hl) in Hm. injection Hm as <-.
  split; [|reflexivity]. split; [exact Hts|]. split; [|reflexivity].
  cbn. apply lookup_insert_eq.
Qed.

Lemma teamInv_timesValid ts : Forall teamInv ts -> Forall timesValid ts.
Proof. intros H. eapply List.Forall_impl; [|exact H]. by intros t []. Qed.

Lemma persistEffect_worldOk w :
  Forall teamInv (teams (st w)) ->
  (timerStarted (st w) = false -> elapsed (st w) = 0) ->
  worldOk (persistEffect w).
Proof.
  intros Hts Hel. split; [exact Hts|]. split; [|exact Hel].
  cbn. apply lookup_insert_eq.
Qed.

Lemma react_worldOk e w : eventOk e -> worldOk w -> worldOk (react e w).
Proof.
  intros He (Hts & Hst & Hel). destruct e; cbn [react eventOk] in *.
  - by split.
  - destruct (JS.truthy_string _) eqn:Hname; [|by split].
    apply persistEffect_worldOk; cbn; unfold addTeam; rewrite Hname; cbn;
      [|exact Hel].
    apply Forall_app. split; [exact Hts|].
    apply Forall_cons. split; [apply newTeam_inv|by apply Forall_nil].
  - apply persistEffect_worldOk; [|exact Hel].
    cbn. rewrite List.Forall_forall in *.
    intros t' (t & <- & Ht)%in_map_iff. apply toggleTeam_inv; [exact He|by apply Hts].
  - destruct (timerStarted (st w)) eqn:Hstarted.
    + unfold timerEffect. cbn. split; [by apply Forall_nil|]. split; [|done].
      cbn. apply lookup_insert_eq.
    + apply persistEffect_worldOk; [by apply Forall_nil|]. cbn. auto.
  - unfold timerEffect. cbn. split; [exact Hts|]. split; [exact Hst|]. discriminate.
  - destruct (timerStarted (st w)) eqn:Hstarted;
      [|split; [exact Hts|split; [exact Hst|intros _; by apply Hel]]].
    split; [exact Hts|]. split; [exact Hst|]. cbn. congruence.
  - by split.
  - by split.
Qed.

(** Every reachable world satisfies the invariant. *)
Lemma reachable_worldOk w : reachable w -> worldOk w.
Proof.
  induction 1 as [store now w Hnone Hnow Hm | e w Hw IH He | now w w' Hw IH Hnow Hm].
  - apply (mount_worldOk store now [] w); [by apply Forall_nil| |exact Hm].
    by rewrite (loadTeams_nothing_saved store Hnone).
  - by apply react_worldOk.
  - destruct IH as (Hts & Hst & Hel).
    apply (mount_worldOk (localStorage w) now (teams (st w)) w'); [exact Hts| |exact Hm].
    rewrite (loadTeams_mirror _ _ (teamInv_timesValid _ Hts) Hst).
    apply teamsOfValue_valueOfTeams.
Qed.

(** A reload gives back the teams that were shown. *)
Lemma reload_teams w now w' :
  reachable w -> mount (localStorage w) now = Some w' ->
  teams (st w') = teams (st w).
Proof.
  intros (Hts & Hst & Hel)%reachable_worldOk Hm.
  apply (mount_worldOk (localStorage w) now (teams (st w)) w'); [exact Hts| |exact Hm].
  rewrite (loadTeams_mirror _ _ (teamInv_timesValid _ Hts) Hst).
  apply teamsOfValue_valueOfTeams.
Qed.

End Invariants.

Section Reachable.

Lemma reachable_teamInv w t : reachable w -> In t (teams (st w)) -> teamInv t.
Proof.
  intros (Hts & _)%reachable_worldOk Ht.
  rewrite List.Forall_forall in Hts. by apply Hts.
Qed.

(** The team that a toggle hits, after the toggle. *)
Lemma toggled_team w now tid mid t' :
  reachable w ->
  In t' (teams (toggleMilestone now tid mid (st w))) -> Team.id t' = tid ->
  exists t, In t (teams (st w)) /\ Team.id t = tid /\
            t' = toggleTeam now (timer (st w)) tid mid t /\
            teamOk t' /\ fromTemplate t' /\ timedAt (timer (st w)) t'.
Proof.
  intros Hw Hin Hid. cbn in Hin. apply in_map_iff in Hin as (t & <- & Ht).
  rewrite toggleTeam_id in Hid.
  destruct (reachable_teamInv w t Hw Ht) as [Hok Htpl _ _ _].
  exists t. repeat split; [done|done| | |].
  - by apply toggleTeam_ok.
  - by apply toggleTeam_template.
  - by apply toggleTeam_timedAt.
Qed.

(** After a toggle, a team with a total time has completed everything. *)
Lemma toggled_total_sound w now tid mid t' :
  reachable w ->
  In t' (teams (toggleMilestone now tid mid (st w))) ->
  Team.totalTime t' <> 0 -> allCompleted t'.
Proof.
  intros Hw Hin Hnz.
  destruct (String.eqb_spec (Team.id t') tid) as [Hid|Hne].
  - destruct (toggled_team w now tid mid t' Hw Hin Hid)
      as (t & _ & _ & _ & Hok & Htpl & Htimed).
    destruct (timedAt_nonzero _ _ Htimed Hnz) as [H3 _].
    by apply stamped_three_iff.
  - cbn in Hin. apply in_map_iff in Hin as (t & <- & Ht).
    rewrite toggleTeam_id in Hne.
    rewrite (toggleTeam_other _ _ _ _ _ Hne) in Hnz |- *.
    by apply (inv_total t (reachable_teamInv w t Hw Ht)).
Qed.

(** A milestone with the toggled identifier that is completed after the
    toggle was stamped with the reading of the toggle. *)
Lemma toggled_hit_stamp now start tid mid t m' :
  Team.id t = tid ->
  In m' (Team.milestones (toggleTeam now start tid mid t)) ->
  Milestone.id m' = mid -> Milestone.completed m' = true ->
  Milestone.completedAt m' = Some now.
Proof.
  intros He Hin Hid Hc. rewrite (toggleTeam_hit _ _ _ _ _ He) in Hin. cbn in Hin.
  apply in_map_iff in Hin as (m & <- & Hm).
  assert (Milestone.id m = mid) as Hm_id.
  { pose proof (toggleIn_shape now mid m) as Hs. unfold shape in Hs. congruence. }
  destruct (toggleIn_hit now mid m Hm_id) as [Hc' Hat].
  rewrite Hc' in Hc. rewrite Hat. by destruct (Milestone.completed m).
Qed.

End Reachable.

(** C3, as the code has it.  After [toggleMilestone] on a team of a
    reachable world, the total time of the team is not zero exactly when
    every milestone of the team is completed and the latest completion
    time is not the session start; the second condition holds whenever the
    toggle hits a milestone of the team at a reading later than the
    session start.  For every team of the registry, toggled or not, a
    total time that is not zero means that every milestone is completed. *)
Theorem toggle_totalTime_nonzero_iff (w : World) (now : Z) (tid : string)
    (mid : Z) (t' : Team.t) :
  reachable w ->
  In t' (teams (toggleMilestone now tid mid (st w))) -> Team.id t' = tid ->
  (Team.totalTime t' <> 0 <->
     allCompleted t' /\ ~ isLatestOf t' (timer (st w))) /\
  (timer (st w) < now ->
   (exists m, In m (Team.milestones t') /\ Milestone.id m = mid) ->
   (Team.totalTime t' <> 0 <-> allCompleted t')) /\
  (forall t, In t (teams (toggleMilestone now tid mid (st w))) ->
     Team.totalTime t <> 0 -> allCompleted t).
Proof.
  intros Hw Hin Hid.
  destruct (toggled_team w now tid mid t' Hw Hin Hid)
    as (t & Ht & Htid & Heq & Hok & Htpl & Htimed).
  assert (Hiff : Team.totalTime t' <> 0 <->
                 allCompleted t' /\ ~ isLatestOf t' (timer (st w))).
  { split.
    - intros Hnz.
      destruct (timedAt_nonzero _ _ Htimed Hnz) as (H3 & x & Hx & Htot).
      split; [by apply stamped_three_iff|].
      intros Hstart%latestCompletion_Some. apply latestCompletion_Some in Hx.
      assert (x = timer (st w)) by congruence. lia.
    - intros [Hall Hstart].
      apply (stamped_three_iff t' Hok Htpl) in Hall.
      destruct (timedAt_three _ _ Htimed Hall) as (x & Hx & Htot).
      rewrite Htot. intros Hz. apply Hstart.
      by replace (timer (st w)) with x by lia. }
  split; [exact Hiff|].
  split; [|intros t0; by apply toggled_total_sound].
  intros Hlate (m' & Hm' & Hmid). rewrite Hiff.
  split; [by intros [? _]|]. intros Hall. split; [exact Hall|].
  intros [_ Hub].
  assert (Hstamp : Milestone.completedAt m' = Some now).
  { subst t'. eapply toggled_hit_stamp; eauto. }
  specialize (Hub m' now Hm' (Hall m' Hm') Hstamp). lia.
Qed.

Lemma sameInstantWorld_reachable : reachable sameInstantWorld.
Proof. apply reachable_run; [apply reachable_first_visit|]; valid_times. Qed.

Lemma scenarioWorld_last_toggle :
  teams (toggleMilestone 31000 "1" 3 (st scenarioWorld))
  = [ Team.mk "1" "Alpha"
        (templateAt (Some 11000) (Some 21000) (Some 31000)) 30000;
      scenarioBeta ].
Proof. vm_compute. reflexivity. Qed.

Lemma scenarioWorld_reachable : reachable scenarioWorld.
Proof. apply reachable_run; [apply reachable_first_visit|]; valid_times. Qed.

Lemma toggle_totalTime_nonzero_iff_witness :
  reachable scenarioWorld /\
  In (Team.mk "1" "Alpha"
        (templateAt (Some 11000) (Some 21000) (Some 31000)) 30000)
     (teams (toggleMilestone 31000 "1" 3 (st scenarioWorld))) /\
  (Team.totalTime (Team.mk "1" "Alpha"
        (templateAt (Some 11000) (Some 21000) (Some 31000)) 30000) <> 0 <->
   allCompleted (Team.mk "1" "Alpha"
        (templateAt (Some 11000) (Some 21000) (Some 31000)) 30000) /\
   ~ isLatestOf (Team.mk "1" "Alpha"
        (templateAt (Some 11000) (Some 21000) (Some 31000)) 30000)
       (timer (st scenarioWorld))).
Proof.
  pose proof scenarioWorld_reachable as Hw.
  assert (Hin : In (Team.mk "1" "Alpha"
                      (templateAt (Some 11000) (Some 21000) (Some 31000)) 30000)
                   (teams (toggleMilestone 31000 "1" 3 (st scenarioWorld))))
    by (rewrite scenarioWorld_last_toggle; left; reflexivity).
  split; [exact Hw|]. split; [exact Hin|].
  exact (proj1 (toggle_totalTime_nonzero_iff scenarioWorld 31000 "1" 3 _
                  Hw Hin eq_refl)).
Defined.

(** C3 fails as stated: when the last milestone is completed at the
    reading at which the timer was started, every milestone of the team is
    completed and its total time is zero. *)
Lemma all_completed_zero_total :
  reachable sameInstantWorld /\
  teams (toggleMilestone 5000 "1000" 3 (st sameInstantWorld))
  = [Team.mk "1000" "Alpha" (templateAt (Some 2000) (Some 3000) (Some 5000)) 0] /\
  allCompleted
    (Team.mk "1000" "Alpha" (templateAt (Some 2000) (Some 3000) (Some 5000)) 0) /\
  ~ (Team.totalTime
       (Team.mk "1000" "Alpha" (templateAt (Some 2000) (Some 3000) (Some 5000)) 0)
     <> 0 <->
     allCompleted
       (Team.mk "1000" "Alpha" (templateAt (Some 2000) (Some 3000) (Some 5000)) 0)).
Proof.
  assert (Hall : allCompleted
    (Team.mk "1000" "Alpha" (templateAt (Some 2000) (Some 3000) (Some 5000)) 0)).
  { intros m Hm. cbn in Hm.
    repeat (destruct Hm as [<-|Hm]; [reflexivity|]). destruct Hm. }
  split; [apply sameInstantWorld_reachable|]. split; [reflexivity|].
  split; [exact Hall|]. intros [_ H]. by apply (H Hall).
Qed.



Lemma lateStartWorld_reachable : reachable lateStartWorld.
Proof. apply reachable_run; [apply reachable_first_visit|]; valid_times. Qed.

Lemma lateStartWorld_state :
  teams (st lateStartWorld)
  = [Team.mk "1000" "Alpha" (templateAt (Some 2000) (Some 3000) (Some 4000)) 4000] /\
  timer (st lateStartWorld) = 5000.
Proof. split; vm_compute; reflexivity. Qed.

Lemma isLatestOf_unique t x y : isLatestOf t x -> isLatestOf t y -> x = y.
Proof.
  intros Hx%latestCompletion_Some Hy%latestCompletion_Some. congruence.
Qed.



(** ** Adding a team, resetting *)

Section Handlers.

Lemma toggleMilestone_teamOk now tid mid s :
  Forall teamOk (teams s) -> Forall teamOk (teams (toggleMilestone now tid mid s)).
Proof.
  intros Hts. cbn. rewrite List.Forall_forall in *.
  intros t' (t & <- & Ht)%in_map_iff. apply toggleTeam_ok. by apply Hts.
Qed.

Lemma templateClone_ok : Forall milestoneOk (map cloneMilestone INITIAL_MILESTONES).
Proof.
  unfold milestoneOk. cbn.
  repeat (apply Forall_cons; split; [cbn; split; [intros [? [=]]|discriminate]|]).
  by apply Forall_nil.
Qed.

Lemma addTeam_teamOk now s :
  Forall teamOk (teams s) -> Forall teamOk (teams (addTeam now s)).
Proof.
  intros Hts. unfold addTeam. destruct (JS.truthy_string _); [|exact Hts].
  cbn. apply Forall_app. split; [exact Hts|].
  apply Forall_cons. split; [exact templateClone_ok|by apply Forall_nil].
Qed.

Lemma trimStart_blank s :
  JS.all_chars JS.isWhiteSpace s = true -> JS.trimStart s = "".
Proof.
  induction s as [|c s IH]; cbn; [done|].
  intros [Hc Hs]%andb_true_iff. rewrite Hc. by apply IH.
Qed.

Lemma trimStart_head s :
  JS.all_chars JS.isWhiteSpace s = false ->
  exists c r, JS.trimStart s = String c r /\ JS.isWhiteSpace c = false.
Proof.
  induction s as [|c s IH]; cbn; [done|].
  destruct (JS.isWhiteSpace c) eqn:Hc; cbn; [exact IH|]. eauto.
Qed.

Lemma trimEnd_head c r :
  JS.isWhiteSpace c = false -> JS.truthy_string (JS.trimEnd (String c r)) = true.
Proof. intros Hc. cbn. rewrite Hc. by destruct (JS.trimEnd r). Qed.

(** A name is rejected exactly when it is empty or all white space. *)
Lemma trim_truthy s :
  JS.truthy_string (JS.trim s) = negb (JS.all_chars JS.isWhiteSpace s).
Proof.
  unfold JS.trim. destruct (JS.all_chars JS.isWhiteSpace s) eqn:Hs.
  - by rewrite (trimStart_blank s Hs).
  - destruct (trimStart_head s Hs) as (c & r & -> & Hc). by apply trimEnd_head.
Qed.

End Handlers.

(** C5.  After [toggleMilestone], the milestone with the given identifier
    in a team with the given identifier, at its place in the registry,
    has [completed] negated and [completedAt] set to the clock reading
    when it became completed, to nothing when it became not completed; so
    it satisfies the invariant.  [toggleMilestone], [addTeam] and
    [handleResetData] keep the invariant on every milestone of every team,
    and it holds in every reachable world. *)
Theorem completedAt_iff_completed :
  (forall now tid mid s i t j m,
     teams s !! i = Some t -> Team.id t = tid ->
     Team.milestones t !! j = Some m -> Milestone.id m = mid ->
     exists t' m',
       teams (toggleMilestone now tid mid s) !! i = Some t' /\
       Team.milestones t' !! j = Some m' /\
       Milestone.completed m' = negb (Milestone.completed m) /\
       Milestone.completedAt m'
         = (if Milestone.completed m then None else Some now) /\
       milestoneOk m') /\
  (forall now tid mid s,
     Forall teamOk (teams s) ->
     Forall teamOk (teams (toggleMilestone now tid mid s))) /\
  (forall now s,
     Forall teamOk (teams s) -> Forall teamOk (teams (addTeam now s))) /\
  (forall w, Forall teamOk (teams (st (handleResetData w)))) /\
  (forall w, reachable w -> Forall teamOk (teams (st w))).
Proof.
  split; [|split; [|split; [|split]]].
  - intros now tid mid s i t j m Hi Htid Hj Hid.
    destruct (toggleIn_hit now mid m Hid) as [Hc Hat].
    exists (toggleTeam now (timer s) tid mid t), (toggleIn now mid m).
    split; [cbn; by rewrite list_lookup_fmap, Hi|].
    split; [rewrite (toggleTeam_hit _ _ _ _ _ Htid); cbn;
            by rewrite list_lookup_fmap, Hj|].
    split; [exact Hc|]. split; [exact Hat|].
    unfold milestoneOk. rewrite Hc, Hat.
    destruct (Milestone.completed m); cbn;
      [split; [intros [? [=]]|discriminate]|split; eauto].
  - apply toggleMilestone_teamOk.
  - apply addTeam_teamOk.
  - intros w. cbn. by apply Forall_nil.
  - intros w (Hts & _)%reachable_worldOk.
    eapply List.Forall_impl; [|exact Hts]. by intros t [].
Qed.

Lemma completedAt_iff_completed_witness :
  teams (st scenarioWorld) !! 0%nat = Some scenarioAlpha /\
  Team.id scenarioAlpha = "1" /\
  Team.milestones scenarioAlpha !! 2%nat
  = Some (Milestone.mk 3 "Catalyst Launchpad"
           "Deploy your prototype seamlessly on Zoho Catalyst." false None) /\
  (exists t' m',
     teams (toggleMilestone 31000 "1" 3 (st scenarioWorld)) !! 0%nat = Some t' /\
     Team.milestones t' !! 2%nat = Some m' /\
     Milestone.completed m' = true /\
     Milestone.completedAt m' = Some 31000) /\
  Forall teamOk (teams (st scenarioWorld)) /\
  Forall teamOk (teams (toggleMilestone 31000 "1" 3 (st scenarioWorld))).
Proof.
  assert (Hi : teams (st scenarioWorld) !! 0%nat = Some scenarioAlpha)
    by (rewrite scenarioWorld_teams; reflexivity).
  assert (Htid : Team.id scenarioAlpha = "1") by reflexivity.
  assert (Hj : Team.milestones scenarioAlpha !! 2%nat
               = Some (Milestone.mk 3 "Catalyst Launchpad"
                         "Deploy your prototype seamlessly on Zoho Catalyst."
                         false None))
    by reflexivity.
  assert (Hts : Forall teamOk (teams (st scenarioWorld))).
  { rewrite scenarioWorld_teams.
    apply Forall_cons; split; [team_ok|].
    apply Forall_cons; split; [team_ok|]. by apply Forall_nil. }
  split; [exact Hi|]. split; [exact Htid|]. split; [exact Hj|].
  split; [|split; [exact Hts|]].
  - destruct (proj1 completedAt_iff_completed 31000 "1" 3 (st scenarioWorld)
                0%nat scenarioAlpha 2%nat _ Hi Htid Hj eq_refl)
      as (t' & m' & Ht' & Hm' & Hc & Hat & _).
    exists t', m'. split; [exact Ht'|]. split; [exact Hm'|].
    split; [exact Hc|exact Hat].
  - exact (proj1 (proj2 completedAt_iff_completed) 31000 "1" 3 _ Hts).
Defined.

(** C6.  [handleResetData] empties the registry, removes the [teams]
    entry of the store and stops the timer, all in one step; after the
    effects that follow, the registry is empty, the timer is stopped with
    [elapsed] at 0, the entry that the effect on [[teams]] writes again is
    the empty array, and a reload reads no team. *)
Theorem reset_clears_everything (w : World) :
  reachable w ->
  (teams (st (handleResetData w)) = [] /\
   localStorage (handleResetData w) !! "teams" = None /\
   timerStarted (st (handleResetData w)) = false) /\
  (teams (st (react ResetData w)) = [] /\
   timerStarted (st (react ResetData w)) = false /\
   elapsed (st (react ResetData w)) = 0 /\
   localStorage (react ResetData w) !! "teams" = Some (JSONText (JArray [])) /\
   loadTeams (localStorage (react ResetData w)) = VArray []) /\
  (forall now w', mount (localStorage (react ResetData w)) now = Some w' ->
     teams (st w') = [] /\ timerStarted (st w') = false /\ elapsed (st w') = 0).
Proof.
  intros Hw. pose proof (reachable_worldOk w Hw) as (_ & _ & Hel).
  assert (Hstore : localStorage (react ResetData w) !! "teams"
                   = Some (JSONText (JArray []))).
  { cbn [react]. destruct (timerStarted (st w)); cbn; apply lookup_insert_eq. }
  assert (Hload : loadTeams (localStorage (react ResetData w)) = VArray []).
  { unfold loadTeams. rewrite Hstore. reflexivity. }
  split; [|split].
  - split; [reflexivity|]. split; [apply lookup_delete_eq|reflexivity].
  - cbn [react]. destruct (timerStarted (st w)) eqn:Hs.
    + repeat split; try reflexivity.
      * cbn. apply lookup_insert_eq.
      * revert Hload. cbn [react]. by rewrite Hs.
    + repeat split; try reflexivity.
      * cbn. by apply Hel.
      * cbn. apply lookup_insert_eq.
      * revert Hload. cbn [react]. by rewrite Hs.
  - intros now w' Hm. unfold mount in Hm. rewrite Hload in Hm.
    cbn in Hm. injection Hm as <-. repeat split.
Qed.

Lemma reset_clears_everything_witness :
  reachable scenarioWorld /\
  teams (st (react ResetData scenarioWorld)) = [] /\
  timerStarted (st (react ResetData scenarioWorld)) = false /\
  elapsed (st (react ResetData scenarioWorld)) = 0.
Proof.
  pose proof scenarioWorld_reachable as Hw.
  split; [exact Hw|].
  destruct (reset_clears_everything scenarioWorld Hw) as (_ & (H1 & H2 & H3 & _) & _).
  split; [exact H1|]. split; [exact H2|exact H3].
Defined.

(** C7, as the code has it.  With a name that is empty or all white space
    [addTeam] changes nothing, neither in the state nor in the store.
    With any other name it appends one team: its identifier is the
    numeral of the clock reading, its name the trimmed name, its
    milestones the template with nothing completed, its total time 0.  The
    identifier is new when the teams of the registry were created at
    earlier readings. *)
Theorem addTeam_appends_one (now : Z) (w : World) :
  (JS.all_chars JS.isWhiteSpace (newTeamName (st w)) = true ->
     addTeam now (st w) = st w /\ react (AddTeam now) w = w) /\
  (JS.all_chars JS.isWhiteSpace (newTeamName (st w)) = false ->
     exists t,
       teams (addTeam now (st w)) = teams (st w) ++ [t] /\
       teams (st (react (AddTeam now) w)) = teams (st w) ++ [t] /\
       Team.id t = JS.toString now /\
       Team.name t = JS.trim (newTeamName (st w)) /\
       Team.milestones t = INITIAL_MILESTONES /\
       (forall m, In m (Team.milestones t) ->
          Milestone.completed m = false /\ Milestone.completedAt m = None) /\
       Team.totalTime t = 0 /\
       ((forall t0, In t0 (teams (st w)) ->
           exists n, Team.id t0 = JS.toString n /\ n < now) ->
        ~ In (Team.id t) (map Team.id (teams (st w))))).
Proof.
  pose proof (trim_truthy (newTeamName (st w))) as Htrim. split; intros Hname;
    rewrite Hname in Htrim; cbn [negb] in Htrim.
  - unfold addTeam. cbn [react]. rewrite Htrim. done.
  - eexists (Team.mk _ _ _ _).
    unfold addTeam. cbn [react]. rewrite Htrim.
    split; [reflexivity|]. split; [cbn; unfold addTeam; by rewrite Htrim|].
    split; [reflexivity|]. split; [reflexivity|]. split; [reflexivity|].
    split; [|split; [reflexivity|]].
    + intros m Hm. cbn in Hm.
      repeat (destruct Hm as [<-|Hm]; [done|]). destruct Hm.
    + intros Hearlier (t0 & Hid & Ht0)%in_map_iff.
      destruct (Hearlier t0 Ht0) as (n & Hn & Hlt). cbn in Hid.
      rewrite Hn in Hid. unfold JS.toString in Hid.
      apply (inj pretty) in Hid. lia.
Qed.

Lemma addTeam_appends_one_witness :
  JS.all_chars JS.isWhiteSpace (newTeamName (st sameIdWorld)) = false /\
  exists t, teams (addTeam 2000 (st sameIdWorld)) = teams (st sameIdWorld) ++ [t] /\
            Team.id t = JS.toString 2000 /\ Team.totalTime t = 0.
Proof.
  assert (Hname : JS.all_chars JS.isWhiteSpace (newTeamName (st sameIdWorld)) = false)
    by (vm_compute; reflexivity).
  split; [exact Hname|].
  destruct (proj2 (addTeam_appends_one 2000 sameIdWorld) Hname)
    as (t & Ht & _ & Hid & _ & _ & _ & Htot & _).
  exists t. split; [exact Ht|]. split; [exact Hid|exact Htot].
Defined.

(** C7 fails as stated: when the clock reads what it read when the first
    team was added, the second team gets the identifier of the first. *)
Lemma sameIdWorld_teams :
  teams (st sameIdWorld) = [Team.mk "1000" "Alpha" INITIAL_MILESTONES 0].
Proof. vm_compute. reflexivity. Qed.

Lemma addTeam_identifier_not_fresh :
  reachable sameIdWorld /\
  teams (st sameIdWorld) = [Team.mk "1000" "Alpha" INITIAL_MILESTONES 0] /\
  teams (addTeam 1000 (st sameIdWorld))
  = [Team.mk "1000" "Alpha" INITIAL_MILESTONES 0;
     Team.mk "1000" "Beta" INITIAL_MILESTONES 0] /\
  In (Team.id (Team.mk "1000" "Beta" INITIAL_MILESTONES 0))
     (map Team.id (teams (st sameIdWorld))).
Proof.
  split; [apply reachable_run; [apply reachable_first_visit|]; valid_times|].
  split; [exact sameIdWorld_teams|]. split; [vm_compute; reflexivity|].
  rewrite sameIdWorld_teams. left. reflexivity.
Qed.

(** ** Identifiers that reference nothing *)

Section UnknownIds.

Lemma retime_spec now start tid mid t :
  (forall m, In m (Team.milestones t) -> Milestone.id m <> mid) ->
  toggleTeam now start tid mid t = retime start tid t.
Proof.
  intros Hm. unfold toggleTeam, retime. destruct (String.eqb _ _); [|done].
  assert (map (toggleIn now mid) (Team.milestones t) = Team.milestones t) as ->;
    [|done].
  transitivity (map (fun m : Milestone.t => m) (Team.milestones t)); [|apply map_id].
  apply map_ext_in. intros m Hin. apply toggleIn_other. by apply Hm.
Qed.

Lemma setTeams_same s : setTeams (teams s) s = s.
Proof. by destruct s. Qed.

Lemma setTeams_map_same (f : Team.t -> Team.t) s :
  (forall t, In t (teams s) -> f t = t) -> setTeams (map f (teams s)) s = s.
Proof.
  intros Hf. assert (map f (teams s) = teams s) as ->; [|apply setTeams_same].
  transitivity (map (fun t : Team.t => t) (teams s)); [|apply map_id].
  by apply map_ext_in.
Qed.

End UnknownIds.

(** C8, as the code has it.  [toggleMilestone] with a team identifier
    that no team has changes nothing.  With an identifier of a team and a
    milestone identifier that no milestone of that team has, every other
    team is unchanged and so are the identifier, the name and the
    milestones of that team; its total time is computed again from its
    milestones and the current session start, so that the state is
    unchanged when the total time already has that value.  No error is
    raised: the operation is a total function. *)
Theorem toggle_unknown_identifiers (now : Z) (tid : string) (mid : Z) (s : State) :
  ((forall t, In t (teams s) -> Team.id t <> tid) ->
     toggleMilestone now tid mid s = s) /\
  ((forall t m, In t (teams s) -> Team.id t = tid ->
                In m (Team.milestones t) -> Milestone.id m <> mid) ->
     toggleMilestone now tid mid s
       = setTeams (map (retime (timer s) tid) (teams s)) s /\
     ((forall t, In t (teams s) -> Team.id t = tid -> timedAt (timer s) t) ->
      toggleMilestone now tid mid s = s)).
Proof.
  split.
  - intros Hnone. unfold toggleMilestone. apply setTeams_map_same.
    intros t Ht. apply toggleTeam_other. by apply Hnone.
  - intros Hnone.
    assert (Hmap : map (toggleTeam now (timer s) tid mid) (teams s)
                   = map (retime (timer s) tid) (teams s)).
    { apply map_ext_in. intros t Ht.
      destruct (String.eqb_spec (Team.id t) tid) as [He|Hne].
      - apply retime_spec. intros m Hm. by apply (Hnone t m).
      - rewrite (toggleTeam_other _ _ _ _ _ Hne). unfold retime.
        by rewrite (proj2 (String.eqb_neq _ _) Hne). }
    unfold toggleMilestone. rewrite Hmap. split; [reflexivity|].
    intros Htimed. apply setTeams_map_same.
    intros t Ht. unfold retime.
    destruct (String.eqb_spec (Team.id t) tid) as [He|Hne]; [|done].
    rewrite <- (Htimed t Ht He). by destruct t.
Qed.

Lemma toggle_unknown_identifiers_witness :
  (forall t, In t (teams (st scenarioWorld)) -> Team.id t <> "3") /\
  toggleMilestone 31000 "3" 1 (st scenarioWorld) = st scenarioWorld.
Proof.
  assert (Hnone : forall t, In t (teams (st scenarioWorld)) -> Team.id t <> "3").
  { rewrite scenarioWorld_teams. intros t [<-|[<-|[]]]; discriminate. }
  split; [exact Hnone|].
  exact (proj1 (toggle_unknown_identifiers 31000 "3" 1 (st scenarioWorld)) Hnone).
Defined.

(** C8 fails as stated: after the timer is started late, a toggle of an
    existing team with a milestone identifier that it does not have
    changes the total time of the team. *)
Lemma toggle_unknown_milestone_changes_total :
  reachable lateStartWorld /\
  (forall t m, In t (teams (st lateStartWorld)) -> In m (Team.milestones t) ->
               Milestone.id m <> 99) /\
  teams (st lateStartWorld)
  = [Team.mk "1000" "Alpha" (templateAt (Some 2000) (Some 3000) (Some 4000)) 4000] /\
  teams (toggleMilestone 6000 "1000" 99 (st lateStartWorld))
  = [Team.mk "1000" "Alpha" (templateAt (Some 2000) (Some 3000) (Some 4000)) (-1000)] /\
  toggleMilestone 6000 "1000" 99 (st lateStartWorld) <> st lateStartWorld.
Proof.
  destruct lateStartWorld_state as [Hteams Htimer].
  assert (Hafter : teams (toggleMilestone 6000 "1000" 99 (st lateStartWorld))
    = [Team.mk "1000" "Alpha" (templateAt (Some 2000) (Some 3000) (Some 4000)) (-1000)])
    by (vm_compute; reflexivity).
  split; [apply lateStartWorld_reachable|]. split; [|split; [exact Hteams|split; [exact Hafter|]]].
  - rewrite Hteams. intros t m [<-|[]] Hm. cbn in Hm.
    repeat (destruct Hm as [<-|Hm]; [discriminate|]). destruct Hm.
  - intros Heq. rewrite Heq, Hteams in Hafter. discriminate Hafter.
Qed.

(** C10.  [toggleMilestone] leaves the rest of the state as it is, keeps
    the teams in place, leaves every team with another identifier
    unchanged and, in a team with the identifier, keeps the identifier,
    the name and the place of every milestone, leaves every milestone with
    another identifier unchanged (title, subtitle, [completed] and
    [completedAt] included) and keeps the identifier, title and subtitle of
    a milestone with the identifier. *)
Theorem toggleMilestone_frame (now : Z) (tid : string) (mid : Z) (s : State) :
  (newTeamName (toggleMilestone now tid mid s) = newTeamName s /\
   presentationMode (toggleMilestone now tid mid s) = presentationMode s /\
   muteAudio (toggleMilestone now tid mid s) = muteAudio s /\
   timer (toggleMilestone now tid mid s) = timer s /\
   timerStarted (toggleMilestone now tid mid s) = timerStarted s /\
   elapsed (toggleMilestone now tid mid s) = elapsed s) /\
  length (teams (toggleMilestone now tid mid s)) = length (teams s) /\
  (forall (i : nat) (t : Team.t), teams s !! i = Some t ->
     exists t', teams (toggleMilestone now tid mid s) !! i = Some t' /\
       (Team.id t <> tid -> t' = t) /\
       Team.id t' = Team.id t /\ Team.name t' = Team.name t /\
       length (Team.milestones t') = length (Team.milestones t) /\
       (forall (j : nat) (m : Milestone.t), Team.milestones t !! j = Some m ->
          exists m', Team.milestones t' !! j = Some m' /\
            (Milestone.id m <> mid -> m' = m) /\
            Milestone.id m' = Milestone.id m /\
            Milestone.title m' = Milestone.title m /\
            Milestone.subtitle m' = Milestone.subtitle m)).
Proof.
  split; [by repeat split|]. split; [cbn; apply length_map|].
  intros i t Hi. exists (toggleTeam now (timer s) tid mid t).
  split; [cbn; by rewrite list_lookup_fmap, Hi|].
  split; [apply toggleTeam_other|].
  split; [apply toggleTeam_id|].
  unfold toggleTeam. destruct (String.eqb (Team.id t) tid); cbn.
  - split; [reflexivity|]. split; [apply length_map|].
    intros j m Hj. exists (toggleIn now mid m).
    split; [by rewrite list_lookup_fmap, Hj|].
    split; [apply toggleIn_other|].
    pose proof (toggleIn_shape now mid m) as Hs. unfold shape in Hs.
    injection Hs as H1 H2 H3. done.
  - split; [reflexivity|]. split; [reflexivity|].
    intros j m Hj. exists m. by rewrite Hj.
Qed.

Lemma toggleMilestone_frame_witness :
  teams (st scenarioWorld) !! 0%nat = Some scenarioAlpha /\
  exists t', teams (toggleMilestone 31000 "1" 3 (st scenarioWorld)) !! 0%nat = Some t' /\
             Team.id t' = Team.id scenarioAlpha /\
             Team.name t' = Team.name scenarioAlpha.
Proof.
  assert (H0 : teams (st scenarioWorld) !! 0%nat = Some scenarioAlpha)
    by (rewrite scenarioWorld_teams; reflexivity).
  split; [exact H0|].
  destruct (proj2 (proj2 (toggleMilestone_frame 31000 "1" 3 (st scenarioWorld)))
              0%nat scenarioAlpha H0) as (t' & Ht' & _ & Hid & Hname & _).
  exists t'. split; [exact Ht'|]. split; [exact Hid|exact Hname].
Defined.

(** ** The leaderboard is in order *)

Section Sorting.

Lemma compareTeams_opposite a b :
  compareTeams b a = JS.number_neg (compareTeams a b).
Proof.
  rewrite !compareTeams_keys, (Z.eqb_sym (completedCount b)).
  destruct (completedCount a =? completedCount b); cbn; [|f_equal; lia].
  destruct (latestCompletion a), (latestCompletion b); cbn; try (f_equal; lia);
    destruct (JS.parseInt (Team.id a)), (JS.parseInt (Team.id b)); cbn;
    try done; f_equal; lia.
Qed.

Lemma isPositive_compare a b :
  isPositive (compareTeams a b) = true <-> ranksBefore b a.
Proof.
  unfold ranksBefore. rewrite (compareTeams_opposite a b).
  destruct (compareTeams a b) as [|z]; cbn; [done|].
  rewrite Z.ltb_lt, Z.ltb_lt. lia.
Qed.

Lemma notAfter_trans a b c :
  rankable a -> rankable b -> rankable c ->
  notAfter a b -> notAfter b c -> notAfter a c.
Proof.
  intros [Ha [i Hi]] [Hb [j Hj]] [Hc [k Hk]]. unfold notAfter.
  rewrite !ranksBefore_keys, Hi, Hj, Hk.
  pose proof (latestCompletion_count a Ha) as [Ca1 Ca2].
  pose proof (latestCompletion_count b Hb) as [Cb1 Cb2].
  pose proof (latestCompletion_count c Hc) as [Cc1 Cc2].
  intros Hab Hbc [Hlt|[Heq Hkey]].
  - destruct (Z.lt_trichotomy (completedCount a) (completedCount b))
      as [?|[Heq|?]]; [| |apply Hab; left; lia].
    + apply Hbc. left. lia.
    + apply Hbc. left. lia.
  - destruct (Z.lt_trichotomy (completedCount a) (completedCount b))
      as [?|[Heq'|?]]; [apply Hbc; left; lia| |apply Hab; left; lia].
    destruct (latestCompletion a) as [x|], (latestCompletion b) as [y|],
      (latestCompletion c) as [z|];
      try (specialize (Ca1 eq_refl)); try (specialize (Cb1 eq_refl));
      try (specialize (Cc1 eq_refl));
      try (discriminate (Ca2 ltac:(lia))); try (discriminate (Cb2 ltac:(lia)));
      try (discriminate (Cc2 ltac:(lia))).
    destruct Hkey as (k' & i' & [= <-] & [= <-] & Hki).
    destruct (Z.lt_ge_cases j i);
      [apply Hab; right; split; [lia|]; exists j, i; done|].
    apply Hbc. right. split; [lia|]. exists k, j. repeat split; lia.
Qed.

Lemma insertTeam_In a l x : In x (insertTeam a l) <-> In x (a :: l).
Proof.
  induction l as [|b l IH]; [done|]. cbn [insertTeam].
  destruct (isPositive (compareTeams a b)); [|done].
  cbn [In] in *. rewrite IH. tauto.
Qed.

Lemma insertTeam_sorted a l :
  rankable a -> Forall rankable l ->
  StronglySorted notAfter l -> StronglySorted notAfter (insertTeam a l).
Proof.
  intros Ha Hl Hs. induction Hs as [|b l Hs IH Hb]; cbn.
  - constructor; [constructor|constructor].
  - apply Forall_cons in Hl as [Hrb Hl].
    destruct (isPositive (compareTeams a b)) eqn:Hpos.
    + apply isPositive_compare in Hpos.
      constructor; [by apply IH|].
      rewrite List.Forall_forall. intros x [<-|Hx]%insertTeam_In.
      * by apply ranksBefore_asym.
      * rewrite List.Forall_forall in Hb. by apply Hb.
    + assert (Hab : notAfter a b).
      { unfold notAfter. rewrite <- isPositive_compare, Hpos. done. }
      constructor; [by constructor|].
      constructor; [exact Hab|].
      rewrite List.Forall_forall in Hb, Hl |- *. intros x Hx.
      apply (notAfter_trans a b x); [done|done|by apply Hl|done|by apply Hb].
Qed.

Lemma insertTeam_rankable a l :
  rankable a -> Forall rankable l -> Forall rankable (insertTeam a l).
Proof.
  intros Ha Hl. rewrite List.Forall_forall in *.
  intros x [<-|Hx]%insertTeam_In; auto.
Qed.

(** The leaderboard is in order: no team is shown after a team that it
    ranks before. *)
Lemma sortedTeams_sorted ts :
  Forall rankable ts -> StronglySorted notAfter (sortedTeams ts).
Proof.
  induction ts as [|a ts IH]; cbn; [constructor|].
  intros [Ha Hts]%Forall_cons. apply insertTeam_sorted; [done| |by apply IH].
  clear IH. induction ts as [|b ts IH]; cbn; [done|].
  apply Forall_cons in Hts as [Hb Hts]. apply insertTeam_rankable; [done|by apply IH].
Qed.

End Sorting.

Section ReachableRanking.

Lemma reachable_rankable w : reachable w -> Forall rankable (teams (st w)).
Proof.
  intros (Hts & _)%reachable_worldOk.
  eapply List.Forall_impl; [|exact Hts].
  intros t [Hok _ _ _ [n Hn]]. split; [exact Hok|].
  exists n. rewrite Hn. apply parseInt_toString.
Qed.

(** In every reachable world the teams are shown in order. *)
Lemma reachable_leaderboard_sorted w :
  reachable w -> StronglySorted notAfter (sortedTeams (teams (st w))).
Proof. intros Hw. by apply sortedTeams_sorted, reachable_rankable. Qed.

End ReachableRanking.

(** ** The leaderboard of the scenarios *)

Section Leaderboard.

Lemma insertTeam_Permutation a l : Permutation (insertTeam a l) (a :: l).
Proof.
  induction l as [|b l IH]; cbn; [done|].
  destruct (isPositive (compareTeams a b)); [|done].
  rewrite IH. apply Permutation_swap.
Qed.

(** [sortedTeams] rearranges the teams. *)
Lemma sortedTeams_Permutation ts : Permutation (sortedTeams ts) ts.
Proof.
  induction ts as [|a ts IH]; cbn; [done|].
  rewrite insertTeam_Permutation. by apply Permutation_skip.
Qed.

(** Alpha has completed two milestones, Beta one: Alpha is shown first,
    in whatever order they were added. *)
Example scenario_more_completions_first :
  sortedTeams [scenarioBeta; scenarioAlpha] = [scenarioAlpha; scenarioBeta] /\
  sortedTeams [scenarioAlpha; scenarioBeta] = [scenarioAlpha; scenarioBeta].
Proof. split; vm_compute; reflexivity. Qed.

(** Alpha and Gamma have completed everything, Gamma earlier: Gamma is
    shown first. *)
Example scenario_earlier_completion_first :
  sortedTeams
    [ Team.mk "1" "Alpha" (templateAt (Some 10000) (Some 20000) (Some 30000)) 30000;
      Team.mk "2" "Gamma" (templateAt (Some 10000) (Some 20000) (Some 25000)) 25000 ]
  = [ Team.mk "2" "Gamma" (templateAt (Some 10000) (Some 20000) (Some 25000)) 25000;
      Team.mk "1" "Alpha" (templateAt (Some 10000) (Some 20000) (Some 30000)) 30000 ].
Proof. vm_compute. reflexivity. Qed.

End Leaderboard.

(** ** Numerals in the texts that are shown *)

Section ShownNumerals.

Lemma stops_empty : stops "".
Proof. by intros acc. Qed.

Lemma stops_char c r : JSDate.decimalDigit c = None -> stops (String c r).
Proof. intros Hc acc. cbn. by rewrite Hc. Qed.

Lemma decimalDigit_pretty_N_char (d : N) :
  (d < 10)%N -> JSDate.decimalDigit (pretty_N_char d) = Some (Z.of_N d).
Proof.
  intros Hd. rewrite <- (N2Z.id d) at 1.
  apply (decimalDigit_digitChar (Z.of_N d)). lia.
Qed.

Lemma append_pretty_N_go (x : N) :
  forall s t, pretty_N_go x s +:+ t = pretty_N_go x (s +:+ t).
Proof.
  induction (N.lt_wf_0 x) as [x _ IH]. intros s t.
  destruct (N.eq_dec x 0%N) as [->|Hx]; [by rewrite !pretty_N_go_0|].
  rewrite (pretty_N_go_step x s), (pretty_N_go_step x (s +:+ t)) by lia.
  rewrite IH by (apply N.div_lt; lia). by rewrite append_String.
Qed.

Lemma spanDigits_pretty_N_go (x : N) :
  forall s, (0 < x)%N ->
    spanDigits (pretty_N_go x s) 0 = spanDigits s (Z.of_N x).
Proof.
  induction (N.lt_wf_0 x) as [x _ IH]. intros s Hx.
  rewrite pretty_N_go_step by exact Hx.
  assert (H10 : (10 <> 0)%N) by discriminate.
  assert (Hd : (x `mod` 10 < 10)%N) by (by apply N.mod_lt).
  assert (Hx10 : Z.of_N x = Z.of_N (x `div` 10) * 10 + Z.of_N (x `mod` 10)).
  { rewrite (N.div_mod x 10 H10) at 1. lia. }
  destruct (N.eq_dec (x `div` 10)%N 0%N) as [Hz|Hnz].
  - rewrite Hz, pretty_N_go_0. cbn [spanDigits].
    rewrite (decimalDigit_pretty_N_char _ Hd), Hx10, Hz. reflexivity.
  - rewrite IH; [|apply N.div_lt; lia|by apply N.neq_0_lt_0].
    cbn [spanDigits]. rewrite (decimalDigit_pretty_N_char _ Hd), <- Hx10.
    reflexivity.
Qed.

Lemma readNumeral_unsigned s : unsigned s -> readNumeral s = spanDigits s 0.
Proof.
  destruct s as [|c r]; [done|].
  destruct c as [[] [] [] [] [] [] [] []]; done.
Qed.

Lemma leadingDigit_unsigned c r : JS.leadingDigit c -> unsigned (String c r).
Proof.
  intros (d & Hd & ->).
  assert (d = 1 \/ d = 2 \/ d = 3 \/ d = 4 \/ d = 5 \/ d = 6 \/
          d = 7 \/ d = 8 \/ d = 9)%N as Hcases by lia.
  repeat (destruct Hcases as [->|Hcases]; [exact I|]).
  subst. exact I.
Qed.

Lemma pretty_nonneg_unsigned z t : 0 <= z -> unsigned (JS.toString z +:+ t).
Proof.
  intros Hz. destruct z as [|p|p]; [exact I| |lia].
  unfold JS.toString, pretty, pretty_Z, pretty, pretty_positive, pretty, pretty_N.
  rewrite decide_False by discriminate.
  destruct (pretty_N_go_head (N.pos p) "" ltac:(lia)) as (c & r & Heq & Hc).
  rewrite Heq, append_String. by apply leadingDigit_unsigned.
Qed.

Lemma spanDigits_toString_nonneg z t :
  0 <= z -> stops t -> spanDigits (JS.toString z +:+ t) 0 = (z, t).
Proof.
  intros Hz Ht. destruct z as [|p|p]; [|clear Hz|lia].
  - change (JS.toString 0 +:+ t) with (String "0" t). cbn. apply Ht.
  - unfold JS.toString, pretty, pretty_Z, pretty, pretty_positive, pretty, pretty_N.
    rewrite decide_False by discriminate.
    rewrite append_pretty_N_go, append_Empty, spanDigits_pretty_N_go by lia.
    apply Ht.
Qed.

(** A numeral followed by a text that does not start with a digit is
    read back. *)
Lemma readNumeral_toString z t :
  stops t -> readNumeral (JS.toString z +:+ t) = (z, t).
Proof.
  intros Ht. destruct (Z.neg_nonneg_cases z) as [Hneg|Hz].
  - destruct z as [|p|p]; [lia|lia|].
    change (JS.toString (Z.neg p)) with ("-" +:+ JS.toString (Z.pos p)).
    change (("-" +:+ JS.toString (Z.pos p)) +:+ t)
      with (String "-" (JS.toString (Z.pos p) +:+ t)).
    cbn [readNumeral]. rewrite spanDigits_toString_nonneg by (lia || done).
    reflexivity.
  - rewrite readNumeral_unsigned by (by apply pretty_nonneg_unsigned).
    by apply spanDigits_toString_nonneg.
Qed.

Lemma spanDigits_zeros k u : spanDigits (repeatChar k "0" +:+ u) 0 = spanDigits u 0.
Proof. induction k as [|k IH]; [done|]. cbn [repeatChar]. by rewrite append_String. Qed.

Lemma readNumeral_padStart n z t :
  0 <= z -> stops t ->
  readNumeral (padStart n "0" (JS.toString z) +:+ t) = (z, t).
Proof.
  intros Hz Ht. unfold padStart.
  set (k := (n - String.length (JS.toString z))%nat). clearbody k.
  assert (Happ : (repeatChar k "0" +:+ JS.toString z) +:+ t
                 = repeatChar k "0" +:+ (JS.toString z +:+ t)).
  { induction k as [|k IH]; [done|]. cbn [repeatChar].
    by rewrite !append_String, IH. }
  rewrite Happ, readNumeral_unsigned.
  - rewrite spanDigits_zeros. by apply spanDigits_toString_nonneg.
  - destruct k; [by apply pretty_nonneg_unsigned|exact I].
Qed.

Lemma append_Empty_r s : s +:+ "" = s.
Proof. induction s as [|c s IH]; [done|]. by rewrite append_String, IH. Qed.

Lemma readNumeral_padStart_end n z :
  0 <= z -> readNumeral (padStart n "0" (JS.toString z)) = (z, "").
Proof.
  intros Hz. rewrite <- (append_Empty_r (padStart n "0" (JS.toString z))).
  by apply readNumeral_padStart, stops_empty.
Qed.

End ShownNumerals.

Section Shown.

Lemma stops_s : stops "s".
Proof. by apply stops_char. Qed.

Lemma readDuration_formatDuration ms :
  readDuration (formatDuration ms) = Some (ms / 1000).
Proof.
  unfold formatDuration, readDuration.
  set (seconds := ms / 1000). set (minutes := seconds / 60).
  set (hours := minutes / 60).
  destruct (Z.ltb_spec 0 hours) as [Hh|Hh].
  - rewrite ?append_String, ?append_Empty.
    rewrite readNumeral_toString by (by apply stops_char);
      rewrite ?append_String, ?append_Empty; cbv beta iota zeta.
    rewrite readNumeral_toString by (by apply stops_char);
      rewrite ?append_String, ?append_Empty; cbv beta iota zeta.
    rewrite readNumeral_toString by (by apply stops_char);
      rewrite ?append_String, ?append_Empty; cbv beta iota zeta.
    f_equal. subst hours minutes.
    rewrite !Z.rem_mod_nonneg by (Z.div_mod_to_equations; lia).
    Z.div_mod_to_equations. lia.
  - destruct (Z.ltb_spec 0 minutes) as [Hm|Hm].
    + rewrite ?append_String, ?append_Empty.
      rewrite readNumeral_toString by (by apply stops_char);
      rewrite ?append_String, ?append_Empty; cbv beta iota zeta.
      rewrite readNumeral_toString by (by apply stops_char);
      rewrite ?append_String, ?append_Empty; cbv beta iota zeta.
      f_equal. subst hours minutes.
      rewrite !Z.rem_mod_nonneg by (Z.div_mod_to_equations; lia).
      Z.div_mod_to_equations. lia.
    + rewrite readNumeral_toString by (by apply stops_char);
      rewrite ?append_String, ?append_Empty; cbv beta iota zeta. reflexivity.
Qed.

Lemma readClock_clockText e : 0 <= e -> readClock (clockText e) = Some e.
Proof.
  intros He. unfold clockText, readClock.
  rewrite !Z.rem_mod_nonneg by lia.
  rewrite ?append_String, ?append_Empty.
  rewrite readNumeral_padStart;
    [|Z.div_mod_to_equations; lia|first [by apply stops_char|apply stops_empty]];
  rewrite ?append_String, ?append_Empty; cbv beta iota zeta.
  rewrite readNumeral_padStart;
    [|Z.div_mod_to_equations; lia|first [by apply stops_char|apply stops_empty]];
  rewrite ?append_String, ?append_Empty; cbv beta iota zeta.
  rewrite readNumeral_padStart_end by (Z.div_mod_to_equations; lia).
  f_equal. Z.div_mod_to_equations. lia.
Qed.

End Shown.

Section Display.

Lemma formatDuration_seconds a b :
  a / 1000 = b / 1000 -> formatDuration a = formatDuration b.
Proof. intros H. unfold formatDuration. by rewrite H. Qed.

Lemma getPositionEmoji_hash p :
  p <> 1 -> p <> 2 -> p <> 3 -> getPositionEmoji p = String "#" (JS.toString p).
Proof.
  intros H1 H2 H3. unfold getPositionEmoji.
  rewrite (proj2 (Z.eqb_neq p 1) H1), (proj2 (Z.eqb_neq p 2) H2),
    (proj2 (Z.eqb_neq p 3) H3).
  by rewrite append_String, append_Empty.
Qed.

Lemma completedCount_bounds t :
  0 <= completedCount t <= Z.of_nat (length (Team.milestones t)).
Proof.
  unfold completedCount.
  pose proof (List.filter_length_le Milestone.completed (Team.milestones t)). lia.
Qed.

Lemma In_sortedTeams t ts : In t (sortedTeams ts) <-> In t ts.
Proof.
  split; apply Permutation_in;
    [apply sortedTeams_Permutation|symmetry; apply sortedTeams_Permutation].
Qed.

Lemma In_imap {A B} (f : nat -> A -> B) l y :
  In y (imap f l) -> exists i x, l !! i = Some x /\ y = f i x.
Proof.
  intros Hy%list_elem_of_In.
  apply elem_of_lookup_imap in Hy as (i & x & Heq & Hx). eauto.
Qed.

Lemma In_view_cards s card :
  In card (view_cards (render s)) <->
  exists i t, sortedTeams (teams s) !! i = Some t /\ card = renderCard i t.
Proof.
  cbn [render view_cards]. split.
  - apply In_imap.
  - intros (i & t & Hi & ->). apply list_elem_of_In, elem_of_lookup_imap. eauto.
Qed.

End Display.

(** X1.  [formatDuration] shows the whole seconds of a duration and
    nothing else: two durations get the same text exactly when they have
    the same number of whole seconds. *)
Theorem formatDuration_tells_seconds (a b : Z) :
  formatDuration a = formatDuration b <-> a / 1000 = b / 1000.
Proof.
  split; [|apply formatDuration_seconds].
  intros H. apply (f_equal readDuration) in H.
  rewrite !readDuration_formatDuration in H. congruence.
Qed.

Lemma formatDuration_tells_seconds_witness :
  61000 / 1000 = 61999 / 1000 /\ formatDuration 61000 = formatDuration 61999.
Proof.
  assert (H : 61000 / 1000 = 61999 / 1000) by reflexivity.
  split; [exact H|]. exact (proj2 (formatDuration_tells_seconds 61000 61999) H).
Defined.

(** X2.  While [elapsed] is not negative the clock of the header shows
    different texts for different elapsed times: the hours are not cut at
    two digits. *)
Theorem clockText_tells_elapsed (a b : Z) :
  0 <= a -> 0 <= b -> a <> b -> clockText a <> clockText b.
Proof.
  intros Ha Hb Hne H. apply Hne. apply (f_equal readClock) in H.
  rewrite !readClock_clockText in H by done. congruence.
Qed.

Lemma clockText_tells_elapsed_witness :
  0 <= 3725 /\ 0 <= 360000 /\ 3725 <> 360000 /\
  clockText 3725 <> clockText 360000.
Proof.
  split; [lia|]. split; [lia|]. split; [lia|].
  apply (clockText_tells_elapsed 3725 360000); lia.
Defined.

(** X3.  [getPositionEmoji] gives different labels to different
    positions. *)
Theorem getPositionEmoji_injective (p q : Z) :
  p <> q -> getPositionEmoji p <> getPositionEmoji q.
Proof.
  intros Hne Heq. apply Hne. revert Heq.
  assert (Hmedal : forall r, r = 1 \/ r = 2 \/ r = 3 ->
            forall r', r' <> 1 -> r' <> 2 -> r' <> 3 ->
            getPositionEmoji r <> getPositionEmoji r').
  { intros r Hr r' H1 H2 H3. rewrite (getPositionEmoji_hash r') by done.
    destruct Hr as [-> | [-> | ->]]; discriminate. }
  destruct (decide (p = 1 \/ p = 2 \/ p = 3)) as [Hp|Hp],
           (decide (q = 1 \/ q = 2 \/ q = 3)) as [Hq|Hq].
  - destruct Hp as [-> | [-> | ->]], Hq as [-> | [-> | ->]]; (reflexivity || discriminate).
  - intros H. exfalso. apply (Hmedal p Hp q); [lia..|done].
  - intros H. exfalso. apply (Hmedal q Hq p); [lia..|done].
  - rewrite !getPositionEmoji_hash by lia. intros [= H].
    by apply (inj pretty) in H.
Qed.

Lemma getPositionEmoji_injective_witness :
  3 <> 13 /\ getPositionEmoji 3 <> getPositionEmoji 13.
Proof.
  assert (H : 3 <> 13) by lia.
  split; [exact H|]. exact (getPositionEmoji_injective 3 13 H).
Defined.

(** X4.  No card of a reachable world is ever shown as completed: a card
    counts a team as fully completed at four completed milestones and a
    team has three, so the position badge, the total time and the
    [Completed] badge are absent, and the progress is at most 3 (of 4). *)
Theorem reachable_cards_never_completed (w : World) (card : Card) :
  reachable w -> In card (view_cards (render (st w))) ->
  card_badge card = None /\ card_totalTime card = None /\
  card_completed card = false /\ 0 <= card_progress card <= 3.
Proof.
  intros Hw (i & t & Hi & ->)%In_view_cards.
  assert (Ht : In t (teams (st w))).
  { apply In_sortedTeams, list_elem_of_In, list_elem_of_lookup. eauto. }
  destruct (reachable_teamInv w t Hw Ht) as [_ Htpl _ _ _].
  pose proof (completedCount_bounds t) as Hb.
  rewrite (fromTemplate_length t Htpl) in Hb.
  unfold renderCard. cbn.
  rewrite (proj2 (Z.eqb_neq (completedCount t) 4)) by lia.
  cbn. repeat split; lia.
Qed.

Lemma reachable_cards_never_completed_witness :
  reachable (react (ToggleMilestone 31000 "1" 3) scenarioWorld) /\
  In (renderCard 0 (Team.mk "1" "Alpha"
        (templateAt (Some 11000) (Some 21000) (Some 31000)) 30000))
     (view_cards (render (st (react (ToggleMilestone 31000 "1" 3) scenarioWorld)))) /\
  card_completed (renderCard 0 (Team.mk "1" "Alpha"
        (templateAt (Some 11000) (Some 21000) (Some 31000)) 30000)) = false.
Proof.
  assert (Hw : reachable (react (ToggleMilestone 31000 "1" 3) scenarioWorld)).
  { apply reach_react; [apply scenarioWorld_reachable|].
    cbn. unfold JSDate.validTime, JSDate.maxTime. lia. }
  assert (Hcards : view_cards (render (st (react (ToggleMilestone 31000 "1" 3)
                                             scenarioWorld)))
                   = [ renderCard 0 (Team.mk "1" "Alpha"
                         (templateAt (Some 11000) (Some 21000) (Some 31000)) 30000);
                       renderCard 1 scenarioBeta ])
    by (vm_compute; reflexivity).
  assert (Hin : In (renderCard 0 (Team.mk "1" "Alpha"
                      (templateAt (Some 11000) (Some 21000) (Some 31000)) 30000))
                   (view_cards (render (st (react (ToggleMilestone 31000 "1" 3)
                                              scenarioWorld)))))
    by (rewrite Hcards; left; reflexivity).
  split; [exact Hw|]. split; [exact Hin|].
  exact (proj1 (proj2 (proj2 (reachable_cards_never_completed _ _ Hw Hin)))).
Defined.

Lemma map_card_key_imap (f : nat -> Team.t -> Card) l :
  (forall i t, card_key (f i t) = Team.id t) ->
  map card_key (imap f l) = map Team.id l.
Proof.
  revert f. induction l as [|t l IH]; intros f Hf; [done|].
  cbn. rewrite Hf. f_equal. apply IH. intros i t0. apply Hf.
Qed.

(** X5.  The cards offer exactly the toggles of the registry: a click can
    call [toggleMilestone] with a pair of identifiers exactly when a team
    of the registry has the first and one of its milestones the second.
    There is one card for each team, in the order of [sortedTeams]. *)
Theorem cards_offer_existing_toggles (s : State) (now : Z) (tid : string) (mid : Z) :
  (offers s (ToggleMilestone now tid mid) = true <->
   exists t m, In t (teams s) /\ In m (Team.milestones t) /\
               Team.id t = tid /\ Milestone.id m = mid) /\
  map card_key (view_cards (render s)) = map Team.id (sortedTeams (teams s)) /\
  Permutation (map card_key (view_cards (render s))) (map Team.id (teams s)).
Proof.
  assert (Hkeys : map card_key (view_cards (render s))
                  = map Team.id (sortedTeams (teams s))).
  { cbn [render view_cards]. by apply map_card_key_imap. }
  split; [|split; [exact Hkeys|]].
  - cbn [offers]. rewrite existsb_exists. split.
    + intros (card & (i & t & Hi & ->)%In_view_cards & Hrow).
      apply existsb_exists in Hrow as (row & Hrow & Hclick).
      cbn [renderCard card_rows] in Hrow.
      apply in_map_iff in Hrow as (m & <- & Hm).
      cbn in Hclick. apply andb_true_iff in Hclick as [Ht%String.eqb_eq Hmid%Z.eqb_eq].
      exists t, m. repeat split; [|done..].
      apply In_sortedTeams, list_elem_of_In, list_elem_of_lookup. eauto.
    + intros (t & m & Ht & Hm & Htid & Hmid).
      apply In_sortedTeams, list_elem_of_In, list_elem_of_lookup in Ht as [i Hi].
      exists (renderCard i t). split; [apply In_view_cards; eauto|].
      apply existsb_exists. exists (renderRow t m).
      split; [cbn; by apply in_map|].
      cbn. rewrite Htid, Hmid, String.eqb_refl, Z.eqb_refl. done.
  - rewrite Hkeys. apply Permutation_map, sortedTeams_Permutation.
Qed.

Lemma cards_offer_existing_toggles_witness :
  offers (st scenarioWorld) (ToggleMilestone 31000 "1" 3) = true /\
  exists t m, In t (teams (st scenarioWorld)) /\ In m (Team.milestones t) /\
              Team.id t = "1" /\ Milestone.id m = 3.
Proof.
  assert (Hoff : offers (st scenarioWorld) (ToggleMilestone 31000 "1" 3) = true)
    by (vm_compute; reflexivity).
  split; [exact Hoff|].
  exact (proj1 (proj1 (cards_offer_existing_toggles (st scenarioWorld) 31000 "1" 3))
               Hoff).
Defined.

(** X6.  [sortedTeams] is stable on a registry that is already in order:
    when no team ranks before a team that precedes it, in particular when
    tied teams are in the order in which they were added, the teams are
    shown in the order of the registry.  The teams are those that [sort]
    is given in a reachable world, on which the comparator is consistent. *)
Theorem sortedTeams_keeps_order (ts : list Team.t) :
  Forall rankable ts -> StronglySorted notAfter ts -> sortedTeams ts = ts.
Proof.
  intros _.
  induction 1 as [|a l Hs IH Ha]; [reflexivity|].
  cbn [sortedTeams fold_right]. fold (sortedTeams l). rewrite IH.
  destruct l as [|b l']; [reflexivity|]. cbn [insertTeam].
  destruct (isPositive (compareTeams a b)) eqn:Hpos; [|reflexivity].
  apply isPositive_compare in Hpos.
  apply Forall_cons in Ha as [Hab _]. by destruct Hab.
Qed.

Lemma sortedTeams_keeps_order_witness :
  Forall rankable [tieAlpha; tieBeta] /\
  StronglySorted notAfter [tieAlpha; tieBeta] /\
  sortedTeams [tieAlpha; tieBeta] = [tieAlpha; tieBeta].
Proof.
  assert (Hr : Forall rankable [tieAlpha; tieBeta]).
  { rewrite <- tieWorld_teams. apply reachable_rankable.
    apply reachable_run; [apply reachable_first_visit|]; valid_times. }
  assert (Hs : StronglySorted notAfter [tieAlpha; tieBeta]).
  { repeat constructor. unfold notAfter, ranksBefore. vm_compute. discriminate. }
  split; [exact Hr|]. split; [exact Hs|]. exact (sortedTeams_keeps_order _ Hr Hs).
Defined.

Section TwoToggles.

Lemma toggleIn_twice now1 now2 mid m :
  Milestone.completed (toggleIn now2 mid (toggleIn now1 mid m))
    = Milestone.completed m /\
  shape (toggleIn now2 mid (toggleIn now1 mid m)) = shape m /\
  (Milestone.id m <> mid -> toggleIn now2 mid (toggleIn now1 mid m) = m) /\
  (Milestone.id m = mid ->
   Milestone.completedAt (toggleIn now2 mid (toggleIn now1 mid m))
     = if Milestone.completed m then Some now2 else None).
Proof.
  split; [|split; [by rewrite !toggleIn_shape|split]].
  - unfold toggleIn. destruct (Milestone.id m =? mid) eqn:He; cbn; rewrite He;
      [by destruct (Milestone.completed m)|done].
  - intros Hne.
    by rewrite (toggleIn_other now1 mid m Hne), (toggleIn_other now2 mid m Hne).
  - intros He. unfold toggleIn. rewrite (proj2 (Z.eqb_eq _ _) He). cbn.
    rewrite (proj2 (Z.eqb_eq _ _) He). cbn. by destruct (Milestone.completed m).
Qed.

End TwoToggles.

(** X7.  Toggling the same milestone twice gives every milestone of every
    team its [completed] flag back, leaves the milestones with another
    identifier and the teams with another identifier as they were, and
    keeps identifiers, titles and subtitles.  A toggled milestone that was
    not completed comes back without a time; one that was completed comes
    back with the time of the second toggle, not with its own. *)
Theorem toggle_twice (now1 now2 : Z) (tid : string) (mid : Z) (s : State)
    (i : nat) (t : Team.t) :
  teams s !! i = Some t ->
  exists t2,
    teams (toggleMilestone now2 tid mid (toggleMilestone now1 tid mid s)) !! i
      = Some t2 /\
    Team.id t2 = Team.id t /\ Team.name t2 = Team.name t /\
    (Team.id t <> tid -> t2 = t) /\
    length (Team.milestones t2) = length (Team.milestones t) /\
    forall (j : nat) (m : Milestone.t), Team.milestones t !! j = Some m ->
      exists m2, Team.milestones t2 !! j = Some m2 /\
        Milestone.completed m2 = Milestone.completed m /\
        shape m2 = shape m /\
        (Milestone.id m <> mid -> m2 = m) /\
        (Team.id t = tid -> Milestone.id m = mid ->
         Milestone.completedAt m2
           = if Milestone.completed m then Some now2 else None).
Proof.
  intros Hi.
  exists (toggleTeam now2 (timer s) tid mid (toggleTeam now1 (timer s) tid mid t)).
  split; [cbn; by rewrite !list_lookup_fmap, Hi|].
  split; [by rewrite !toggleTeam_id|].
  destruct (String.eqb_spec (Team.id t) tid) as [He|Hne].
  - rewrite (toggleTeam_hit now1 _ _ _ _ He).
    rewrite toggleTeam_hit by done. cbn.
    split; [done|]. split; [done|]. split; [by rewrite !length_map|].
    intros j m Hj. exists (toggleIn now2 mid (toggleIn now1 mid m)).
    split; [by rewrite !list_lookup_fmap, Hj|].
    destruct (toggleIn_twice now1 now2 mid m) as (Hc & Hs & Ho & Hat).
    repeat split; auto.
  - rewrite !(toggleTeam_other _ _ _ _ _ Hne).
    split; [done|]. split; [done|]. split; [done|].
    intros j m Hj. exists m.
    split; [done|]. split; [done|]. split; [done|]. split; [done|].
    intros He. by destruct Hne.
Qed.

Lemma toggle_twice_witness :
  teams (st scenarioWorld) !! 0%nat = Some scenarioAlpha /\
  exists t2,
    teams (toggleMilestone 32000 "1" 1 (toggleMilestone 31000 "1" 1 (st scenarioWorld)))
      !! 0%nat = Some t2 /\
    Team.name t2 = Team.name scenarioAlpha.
Proof.
  assert (H0 : teams (st scenarioWorld) !! 0%nat = Some scenarioAlpha)
    by (rewrite scenarioWorld_teams; reflexivity).
  split; [exact H0|].
  destruct (toggle_twice 31000 32000 "1" 1 (st scenarioWorld) 0 scenarioAlpha H0)
    as (t2 & Ht2 & _ & Hname & _).
  exists t2. split; [exact Ht2|exact Hname].
Defined.



(** X9.  A reload of the page in a reachable world succeeds and shows the
    same teams, with their milestones and total times; it forgets the
    timer, which is stopped with [elapsed] at 0 and a start time that is
    the time of the reload, the name being typed and the mute and
    presentation switches.  In every reachable world the [teams] entry of
    the store is what [JSON.stringify] writes for the teams shown. *)
Theorem reload_keeps_teams_only (w : World) (now : Z) :
  reachable w ->
  localStorage w !! "teams" = Some (JSON_stringify (valueOfTeams (teams (st w)))) /\
  mount (localStorage w) now
  = Some (mkWorld (mkState (teams (st w)) "" false false now false 0)
                  (localStorage w) []).
Proof.
  intros (Hts & Hst & Hel)%reachable_worldOk. split; [exact Hst|].
  rewrite (mount_teams (localStorage w) now (teams (st w))).
  - do 2 f_equal. apply map_eq. intros k.
    destruct (decide (k = "teams")) as [->|Hk];
      [by rewrite lookup_insert_eq|by rewrite lookup_insert_ne].
  - rewrite (loadTeams_mirror _ _ (teamInv_timesValid _ Hts) Hst).
    apply teamsOfValue_valueOfTeams.
Qed.

Lemma reload_keeps_teams_only_witness :
  reachable scenarioWorld /\
  mount (localStorage scenarioWorld) 40000
  = Some (mkWorld (mkState (teams (st scenarioWorld)) "" false false 40000 false 0)
                  (localStorage scenarioWorld) []).
Proof.
  split; [exact scenarioWorld_reachable|].
  exact (proj2 (reload_keeps_teams_only scenarioWorld 40000 scenarioWorld_reachable)).
Defined.

(** X10.  The milestones of a team never change in number, order,
    identifier, title or subtitle: in every reachable world every team has
    the three milestones of [INITIAL_MILESTONES], with identifiers 1, 2
    and 3. *)
Theorem reachable_teams_keep_template (w : World) (t : Team.t) :
  reachable w -> In t (teams (st w)) ->
  map shape (Team.milestones t) = map shape INITIAL_MILESTONES /\
  map Milestone.id (Team.milestones t) = [1; 2; 3] /\
  length (Team.milestones t) = 3%nat.
Proof.
  intros Hw Ht. destruct (reachable_teamInv w t Hw Ht) as [_ Htpl _ _ _].
  split; [exact Htpl|]. split; [|by apply fromTemplate_length].
  unfold fromTemplate in Htpl.
  apply (f_equal (map (fun x : Z * string * string => x.1.1))) in Htpl.
  rewrite !map_map in Htpl. exact Htpl.
Qed.

Lemma reachable_teams_keep_template_witness :
  reachable scenarioWorld /\ In scenarioAlpha (teams (st scenarioWorld)) /\
  map Milestone.id (Team.milestones scenarioAlpha) = [1; 2; 3].
Proof.
  assert (Hin : In scenarioAlpha (teams (st scenarioWorld)))
    by (rewrite scenarioWorld_teams; left; reflexivity).
  split; [exact scenarioWorld_reachable|]. split; [exact Hin|].
  exact (proj1 (proj2 (reachable_teams_keep_template _ _ scenarioWorld_reachable Hin))).
Defined.

Section Sessions.

Lemma offers_toggle s now tid mid :
  offers s (ToggleMilestone now tid mid) = true ->
  exists t m, In t (teams s) /\ In m (Team.milestones t) /\
              Team.id t = tid /\ Milestone.id m = mid.
Proof.
  cbn [offers]. rewrite existsb_exists.
  intros (card & (i & t & Hi & ->)%In_view_cards & Hrow).
  apply existsb_exists in Hrow as (row & Hrow & Hclick).
  cbn [renderCard card_rows] in Hrow.
  apply in_map_iff in Hrow as (m & <- & Hm).
  cbn in Hclick. apply andb_true_iff in Hclick as [Ht%String.eqb_eq Hmid%Z.eqb_eq].
  exists t, m. repeat split; [|done..].
  apply In_sortedTeams, list_elem_of_In, list_elem_of_lookup. eauto.
Qed.

Lemma reload_world w now :
  reachable w ->
  mount (localStorage w) now
  = Some (mkWorld (mkState (teams (st w)) "" false false now false 0)
                  (localStorage w) []).
Proof.
  intros (Hts & Hst & Hel)%reachable_worldOk.
  rewrite (mount_teams (localStorage w) now (teams (st w))).
  - do 2 f_equal. apply map_eq. intros k.
    destruct (decide (k = "teams")) as [->|Hk];
      [by rewrite lookup_insert_eq|by rewrite lookup_insert_ne].
  - rewrite (loadTeams_mirror _ _ (teamInv_timesValid _ Hts) Hst).
    apply teamsOfValue_valueOfTeams.
Qed.

Lemma session_reachable clock w : session clock w -> reachable w.
Proof.
  induction 1 as [store now w Hs Hnow Hm
                 | clock e w _ IH Hoff Hr
                 | clock now e w _ IH Hoff Hr Hle Hnow
                 | clock now w w' _ IH Hle Hnow Hm].
  - by apply (reach_first store now).
  - apply reach_react; [exact IH|]. by destruct e.
  - apply reach_react; [exact IH|]. destruct e; cbn in Hr |- *; by simplify_eq.
  - by apply (reach_reload now w).
Qed.

Lemma sessionOk_later clock clock' w :
  clock <= clock' -> timer (st w) <= clock ->
  Forall (fun t =>
            0 <= Team.totalTime t /\
            (exists n, Team.id t = JS.toString n /\ n <= clock) /\
            (forall m x, In m (Team.milestones t) ->
                         Milestone.completedAt m = Some x -> x <= clock))
         (teams (st w)) ->
  Forall (fun t =>
            0 <= Team.totalTime t /\
            (exists n, Team.id t = JS.toString n /\ n <= clock') /\
            (forall m x, In m (Team.milestones t) ->
                         Milestone.completedAt m = Some x -> x <= clock'))
         (teams (st w)).
Proof.
  intros Hle _ Hts. eapply List.Forall_impl; [|exact Hts].
  intros t (Htot & (n & Hn & Hnc) & Hat). split; [exact Htot|].
  split; [exists n; split; [done|lia]|].
  intros m x Hm Hx. specialize (Hat m x Hm Hx). lia.
Qed.

(** A team of a reachable world has a milestone for every identifier that
    a milestone of a reachable team has. *)
Lemma template_has_milestone w t t0 m0 :
  reachable w -> In t (teams (st w)) -> In t0 (teams (st w)) ->
  In m0 (Team.milestones t0) ->
  exists m, In m (Team.milestones t) /\ Milestone.id m = Milestone.id m0.
Proof.
  intros Hw Ht Ht0 Hm0.
  destruct (reachable_teamInv w t Hw Ht) as [_ Htpl _ _ _].
  destruct (reachable_teamInv w t0 Hw Ht0) as [_ Htpl0 _ _ _].
  unfold fromTemplate in *.
  assert (Hin : In (shape m0) (map shape (Team.milestones t))).
  { rewrite Htpl, <- Htpl0. by apply in_map. }
  apply in_map_iff in Hin as (m & Hs & Hm). exists m. split; [done|].
  unfold shape in Hs. congruence.
Qed.

Lemma toggle_sessionOk clock now tid mid w :
  reachable w -> sessionOk clock w -> clock <= now ->
  offers (st w) (ToggleMilestone now tid mid) = true ->
  sessionOk now (react (ToggleMilestone now tid mid) w).
Proof.
  intros Hw (Htimer & Hel & Hts) Hle Hoff.
  destruct (offers_toggle _ _ _ _ Hoff) as (t0 & m0 & Ht0 & Hm0 & _ & Hmid).
  split; [cbn; lia|]. split; [exact Hel|].
  cbn. rewrite List.Forall_forall in Hts |- *.
  intros t' Hin'.
  pose proof Hin' as Hin. apply in_map_iff in Hin as (t & Heq & Ht).
  destruct (Hts t Ht) as (Htot & (n & Hn & Hnc) & Hat).
  destruct (String.eqb_spec (Team.id t) tid) as [He|Hne].
  - assert (Hid' : Team.id t' = tid) by (by rewrite <- Heq, toggleTeam_id).
    destruct (toggled_team w now tid mid t' Hw Hin' Hid')
      as (t1 & _ & He1 & Heq1 & Hok & Htpl & Htimed).
    split; [|split].
    + destruct (Z.eq_dec (Team.totalTime t') 0) as [->|Hnz]; [lia|].
      destruct (timedAt_nonzero _ _ Htimed Hnz) as (H3 & x & Hx & Htotal).
      assert (Hall : allCompleted t') by (by apply stamped_three_iff).
      destruct (template_has_milestone w t t0 m0 Hw Ht Ht0 Hm0) as (m & Hm & Hmi).
      assert (Hm' : In (toggleIn now mid m) (Team.milestones t')).
      { rewrite <- Heq, (toggleTeam_hit _ _ _ _ _ He). cbn. by apply in_map. }
      assert (Hid_m : Milestone.id (toggleIn now mid m) = mid).
      { pose proof (toggleIn_shape now mid m) as Hs. unfold shape in Hs. congruence. }
      assert (Hstamp : Milestone.completedAt (toggleIn now mid m) = Some now).
      { apply (toggled_hit_stamp now (timer (st w)) tid mid t1); try done.
        - by rewrite <- Heq1.
        - by apply Hall. }
      destruct Hx as [_ Hub].
      specialize (Hub _ now Hm' (Hall _ Hm') Hstamp). lia.
    + exists n. rewrite <- Heq, toggleTeam_id. split; [done|lia].
    + rewrite <- Heq, (toggleTeam_hit _ _ _ _ _ He). cbn.
      intros m' x (m & <- & Hm)%in_map_iff [->|Hx]%toggleIn_time; [lia|].
      specialize (Hat m x Hm Hx). lia.
  - rewrite (toggleTeam_other _ _ _ _ _ Hne) in Heq. subst t'.
    split; [exact Htot|]. split; [exists n; split; [done|lia]|].
    intros m x Hm Hx. specialize (Hat m x Hm Hx). lia.
Qed.

Lemma session_sessionOk clock w : session clock w -> sessionOk clock w.
Proof.
  induction 1 as [store now w Hs Hnow Hm
                 | clock e w Hsess IH Hoff Hr
                 | clock now e w Hsess IH Hoff Hr Hle Hnow
                 | clock now w w' Hsess IH Hle Hnow Hm].
  - unfold mount in Hm. rewrite (loadTeams_nothing_saved store Hs) in Hm.
    cbn in Hm. injection Hm as <-. split; [cbn; lia|]. split; [cbn; lia|].
    cbn. by apply Forall_nil.
  - destruct IH as (Htimer & Hel & Hts).
    destruct e; cbn in Hr; try discriminate Hr; cbn [react].
    + by split.
    + destruct (timerStarted (st w)); cbn;
        (split; [cbn; lia|split; [cbn; lia|cbn; by apply Forall_nil]]).
    + by split.
    + by split.
  - pose proof (session_reachable _ _ Hsess) as Hw.
    pose proof IH as (Htimer & Hel & Hts).
    destruct e; cbn in Hr; try discriminate Hr; injection Hr as ->.
    + cbn [react]. destruct (JS.truthy_string _) eqn:Hname.
      * split; [cbn; unfold addTeam; rewrite Hname; cbn; lia|].
        split; [cbn; unfold addTeam; rewrite Hname; cbn; lia|].
        cbn. unfold addTeam. rewrite Hname. cbn.
        apply Forall_app. split; [by apply (sessionOk_later clock)|].
        apply Forall_cons. split; [|by apply Forall_nil].
        split; [cbn; lia|]. split; [exists now; split; [done|lia]|].
        intros m x Hm Hx. cbn in Hm.
        repeat (destruct Hm as [<-|Hm]; [discriminate Hx|]). destruct Hm.
      * split; [lia|]. split; [done|]. by apply (sessionOk_later clock).
    + by apply (toggle_sessionOk clock).
    + cbn [react]. unfold timerEffect. cbn.
      split; [cbn; lia|]. split; [exact Hel|]. cbn. by apply (sessionOk_later clock).
    + cbn [react]. cbn in Hoff. rewrite Hoff.
      split; [cbn; lia|]. split; [|cbn; by apply (sessionOk_later clock)].
      cbn. apply Z.div_pos; lia.
  - pose proof (session_reachable _ _ Hsess) as Hw.
    destruct IH as (Htimer & Hel & Hts).
    rewrite (reload_world w now Hw) in Hm. injection Hm as <-.
    split; [cbn; lia|]. split; [cbn; lia|]. cbn. by apply (sessionOk_later clock).
Qed.

Lemma insertTeam_before_last a new l :
  isPositive (compareTeams a new) = false ->
  insertTeam a (l ++ [new]) = insertTeam a l ++ [new].
Proof.
  intros Hnew. induction l as [|b l IH]; cbn; [by rewrite Hnew|].
  destruct (isPositive (compareTeams a b)); [by rewrite IH|done].
Qed.

Lemma sortedTeams_append_last ts new :
  (forall a, In a ts -> isPositive (compareTeams a new) = false) ->
  sortedTeams (ts ++ [new]) = sortedTeams ts ++ [new].
Proof.
  induction ts as [|a ts IH]; intros Hall; [reflexivity|].
  cbn [app sortedTeams fold_right]. fold (sortedTeams (ts ++ [new])).
  fold (sortedTeams ts).
  rewrite IH by (intros; apply Hall; by right).
  apply insertTeam_before_last, Hall. by left.
Qed.

Lemma new_team_not_before now name a n :
  Team.id a = JS.toString n -> n <= now ->
  isPositive (compareTeams a (Team.mk (JS.toString now) name INITIAL_MILESTONES 0))
  = false.
Proof.
  intros Hid Hle. rewrite compareTeams_keys.
  change (completedCount (Team.mk (JS.toString now) name INITIAL_MILESTONES 0)) with 0.
  change (latestCompletion (Team.mk (JS.toString now) name INITIAL_MILESTONES 0))
    with (@None Z).
  pose proof (completedCount_bounds a) as [Hc _].
  destruct (Z.eqb_spec (completedCount a) 0) as [He|Hne]; cbn [negb].
  - assert (Htert : JS.number_sub (JS.parseInt (Team.id a))
                      (JS.parseInt (JS.toString now)) = JS.Num (n - now)).
    { rewrite Hid, !parseInt_toString. reflexivity. }
    destruct (latestCompletion a); cbn [Team.id]; rewrite Htert; cbn;
      apply Z.ltb_ge; lia.
  - cbn. apply Z.ltb_ge. lia.
Qed.

Lemma session_run es : forall clock w clock',
  session clock w -> offeredRun clock es w = Some clock' ->
  session clock' (run es w).
Proof.
  induction es as [|e es IH]; intros clock w clock' Hs Hrun.
  - cbn in Hrun. injection Hrun as <-. exact Hs.
  - cbn [offeredRun] in Hrun.
    destruct (offers (st w) e) eqn:Hoff; [|discriminate Hrun].
    change (run (e :: es) w) with (run es (react e w)).
    destruct (readingOf e) as [now|] eqn:Hread.
    + destruct ((clock <=? now) && (- JSDate.maxTime <=? now) &&
                (now <=? JSDate.maxTime)) eqn:Hok; [|discriminate Hrun].
      apply andb_true_iff in Hok as [[Hle%Z.leb_le Hlo%Z.leb_le]%andb_true_iff
                                       Hhi%Z.leb_le].
      apply (IH now); [|exact Hrun].
      by apply (session_timed clock now).
    + apply (IH clock); [|exact Hrun]. by apply session_act.
Qed.

Lemma session_first_visit now : JSDate.validTime now -> session now (firstVisit now).
Proof.
  intros Hnow.
  apply (session_first ∅ now); [done|exact Hnow|apply mount_first_visit].
Qed.

Lemma scenarioWorld_session : session 21000 scenarioWorld.
Proof.
  apply (session_run _ 0).
  - apply session_first_visit. unfold JSDate.validTime, JSDate.maxTime. lia.
  - vm_compute. reflexivity.
Qed.

Lemma react_toggle_teams now tid mid w :
  teams (st (react (ToggleMilestone now tid mid) w))
  = teams (toggleMilestone now tid mid (st w)).
Proof. reflexivity. Qed.

Lemma react_typeName_state name w :
  teams (st (react (TypeName name) w)) = teams (st w) /\
  newTeamName (st (react (TypeName name) w)) = name.
Proof. split; reflexivity. Qed.

Lemma scenarioWorld_offers_last_toggle :
  offers (st scenarioWorld) (ToggleMilestone 31000 "1" 3) = true.
Proof. vm_compute. reflexivity. Qed.

Lemma scenarioWorld_offers_typing name :
  offers (st scenarioWorld) (TypeName name) = true.
Proof. vm_compute. reflexivity. Qed.

Lemma scenarioWorld_leaderboard :
  sortedTeams (teams (st scenarioWorld)) = [scenarioAlpha; scenarioBeta].
Proof. vm_compute. reflexivity. Qed.

End Sessions.

(** X11.  In a session at the controls with a clock that does not go
    back, the total time of every team is never negative, [elapsed] is
    never negative, the timer was started no later than the last reading,
    every completion time is a reading that was taken, and every
    identifier is the numeral of a reading that was taken. *)
Theorem session_total_times_not_negative (clock : Z) (w : World) :
  session clock w ->
  reachable w /\ timer (st w) <= clock /\ 0 <= elapsed (st w) /\
  (forall t, In t (teams (st w)) ->
     0 <= Team.totalTime t /\
     (exists n, Team.id t = JS.toString n /\ n <= clock) /\
     (forall m x, In m (Team.milestones t) ->
                  Milestone.completedAt m = Some x -> x <= clock)).
Proof.
  intros Hs. split; [by apply (session_reachable clock)|].
  destruct (session_sessionOk clock w Hs) as (Htimer & Hel & Hts).
  split; [exact Htimer|]. split; [exact Hel|].
  rewrite List.Forall_forall in Hts. exact Hts.
Qed.

Lemma session_total_times_not_negative_witness :
  session 31000 (react (ToggleMilestone 31000 "1" 3) scenarioWorld) /\
  In (Team.mk "1" "Alpha"
        (templateAt (Some 11000) (Some 21000) (Some 31000)) 30000)
     (teams (st (react (ToggleMilestone 31000 "1" 3) scenarioWorld))) /\
  timer (st (react (ToggleMilestone 31000 "1" 3) scenarioWorld)) <= 31000 /\
  0 <= elapsed (st (react (ToggleMilestone 31000 "1" 3) scenarioWorld)) /\
  0 <= Team.totalTime
         (Team.mk "1" "Alpha"
            (templateAt (Some 11000) (Some 21000) (Some 31000)) 30000) /\
  (exists n, "1" = JS.toString n /\ n <= 31000) /\
  (forall m x,
     In m (templateAt (Some 11000) (Some 21000) (Some 31000)) ->
     Milestone.completedAt m = Some x -> x <= 31000).
Proof.
  assert (Hs : session 31000 (react (ToggleMilestone 31000 "1" 3) scenarioWorld)).
  { apply (session_timed 21000 31000);
      [exact scenarioWorld_session|exact scenarioWorld_offers_last_toggle
      |reflexivity|lia|unfold JSDate.validTime, JSDate.maxTime; lia]. }
  assert (Hin : In (Team.mk "1" "Alpha"
                      (templateAt (Some 11000) (Some 21000) (Some 31000)) 30000)
                   (teams (st (react (ToggleMilestone 31000 "1" 3) scenarioWorld))))
    by (rewrite react_toggle_teams, scenarioWorld_last_toggle; left; reflexivity).
  destruct (session_total_times_not_negative 31000 _ Hs)
    as (_ & Htimer & Hel & Hteams).
  destruct (Hteams _ Hin) as (Htot & Hid & Hat).
  split; [exact Hs|]. split; [exact Hin|]. split; [exact Htimer|].
  split; [exact Hel|]. split; [exact Htot|]. split; [exact Hid|exact Hat].
Defined.

(** X12.  In a session with a clock that does not go back, a team that is
    added is shown last: the leaderboard after [addTeam] is the leaderboard
    before it followed by the new team. *)
Theorem added_team_is_shown_last (clock now : Z) (w : World) :
  session clock w -> clock <= now ->
  JS.all_chars JS.isWhiteSpace (newTeamName (st w)) = false ->
  sortedTeams (teams (st (react (AddTeam now) w)))
  = sortedTeams (teams (st w))
    ++ [Team.mk (JS.toString now) (JS.trim (newTeamName (st w))) INITIAL_MILESTONES 0].
Proof.
  intros Hs Hle Hname.
  destruct (session_sessionOk clock w Hs) as (_ & _ & Hts).
  pose proof (trim_truthy (newTeamName (st w))) as Htrim.
  rewrite Hname in Htrim. cbn [negb] in Htrim.
  cbn [react]. rewrite Htrim. cbn. unfold addTeam. rewrite Htrim. cbn.
  change (map cloneMilestone INITIAL_MILESTONES) with INITIAL_MILESTONES.
  apply sortedTeams_append_last. intros a Ha.
  rewrite List.Forall_forall in Hts.
  destruct (Hts a Ha) as (_ & (n & Hn & Hnc) & _).
  apply (new_team_not_before now _ a n Hn). lia.
Qed.

Lemma added_team_is_shown_last_witness :
  session 21000 (react (TypeName "Gamma") scenarioWorld) /\ 21000 <= 22000 /\
  JS.all_chars JS.isWhiteSpace
    (newTeamName (st (react (TypeName "Gamma") scenarioWorld))) = false /\
  sortedTeams (teams (st (react (TypeName "Gamma") scenarioWorld)))
  = [scenarioAlpha; scenarioBeta] /\
  sortedTeams (teams (st (react (AddTeam 22000)
                            (react (TypeName "Gamma") scenarioWorld))))
  = sortedTeams (teams (st (react (TypeName "Gamma") scenarioWorld)))
    ++ [Team.mk (JS.toString 22000)
          (JS.trim (newTeamName (st (react (TypeName "Gamma") scenarioWorld))))
          INITIAL_MILESTONES 0].
Proof.
  assert (Hs : session 21000 (react (TypeName "Gamma") scenarioWorld)).
  { apply session_act;
      [exact scenarioWorld_session|apply scenarioWorld_offers_typing|reflexivity]. }
  assert (Hname : JS.all_chars JS.isWhiteSpace
            (newTeamName (st (react (TypeName "Gamma") scenarioWorld))) = false)
    by (rewrite (proj2 (react_typeName_state "Gamma" scenarioWorld)); reflexivity).
  assert (Hshown : sortedTeams (teams (st (react (TypeName "Gamma") scenarioWorld)))
                   = [scenarioAlpha; scenarioBeta])
    by (rewrite (proj1 (react_typeName_state "Gamma" scenarioWorld));
        exact scenarioWorld_leaderboard).
  split; [exact Hs|]. split; [lia|]. split; [exact Hname|]. split; [exact Hshown|].
  apply (added_team_is_shown_last 21000 22000 _ Hs); [lia|exact Hname].
Defined.

(** X13.  While presentation mode is on, nothing that the render offers
    adds or removes a team, starts or resets the timer, mutes the sound or
    changes the name being typed: the identifiers of the teams, the timer
    and these settings are as before every offered reaction. *)
Theorem presentation_mode_freezes_registry (e : event) (w : World) :
  presentationMode (st w) = true -> offers (st w) e = true ->
  map Team.id (teams (st (react e w))) = map Team.id (teams (st w)) /\
  length (teams (st (react e w))) = length (teams (st w)) /\
  timer (st (react e w)) = timer (st w) /\
  timerStarted (st (react e w)) = timerStarted (st w) /\
  muteAudio (st (react e w)) = muteAudio (st w) /\
  newTeamName (st (react e w)) = newTeamName (st w).
Proof.
  intros Hp Hoff.
  destruct e; cbn [offers render view_addTeam view_reset view_startTimer view_mute]
    in Hoff; rewrite ?Hp in Hoff; try discriminate Hoff.
  - cbn. rewrite map_map, length_map. repeat split; try reflexivity.
    apply map_ext. intros t. apply toggleTeam_id.
  - cbn [react]. rewrite Hoff. by repeat split.
  - by repeat split.
Qed.

Lemma presentation_mode_freezes_registry_witness :
  presentationMode (st (react (SetPresentation true) scenarioWorld)) = true /\
  offers (st (react (SetPresentation true) scenarioWorld))
         (ToggleMilestone 31000 "1" 3) = true /\
  length (teams (st (react (ToggleMilestone 31000 "1" 3)
                       (react (SetPresentation true) scenarioWorld))))
  = length (teams (st (react (SetPresentation true) scenarioWorld))).
Proof.
  assert (Hp : presentationMode (st (react (SetPresentation true) scenarioWorld)) = true)
    by reflexivity.
  assert (Hoff : offers (st (react (SetPresentation true) scenarioWorld))
                        (ToggleMilestone 31000 "1" 3) = true)
    by (vm_compute; reflexivity).
  split; [exact Hp|]. split; [exact Hoff|].
  exact (proj1 (proj2 (presentation_mode_freezes_registry _ _ Hp Hoff))).
Defined.

Section Revive.

Lemma lookupProp_setProp_eq k v props :
  lookupProp k (setProp k v props) = Some v.
Proof.
  induction props as [|[k' v'] props IH]; cbn.
  - by rewrite String.eqb_refl.
  - destruct (String.eqb k' k) eqn:He; cbn; by rewrite He.
Qed.

Lemma lookupProp_setProp_ne k k' v props :
  k' <> k -> lookupProp k' (setProp k v props) = lookupProp k' props.
Proof.
  intros Hne. induction props as [|[k0 v0] props IH]; cbn.
  - destruct (String.eqb_spec k k'); [congruence|done].
  - destruct (String.eqb_spec k0 k) as [->|Hk]; cbn.
    + destruct (String.eqb_spec k k'); [congruence|done].
    + by rewrite IH.
Qed.

Lemma setProp_setProp k v props :
  setProp k v (setProp k v props) = setProp k v props.
Proof.
  induction props as [|[k' v'] props IH]; cbn.
  - by rewrite String.eqb_refl.
  - destruct (String.eqb k' k) eqn:He; cbn; rewrite He; [done|by rewrite IH].
Qed.

Lemma revived_completedAt c : revivedTime (if truthy c then newDate c else VUndefined).
Proof.
  destruct (truthy c); [|by left]. right.
  destruct c; cbn; eauto.
Qed.

Lemma reviveMilestone_object m v :
  reviveMilestone m = Some v ->
  exists props c,
    v = VObject props /\ lookupProp "completedAt" props = Some c /\ revivedTime c /\
    (forall k, k <> "completedAt" -> lookupProp k props = lookupProp k (spread m)).
Proof.
  unfold reviveMilestone. intros Hr.
  destruct (getField m "completedAt") as [c|]; [|discriminate Hr].
  cbn in Hr. injection Hr as <-.
  eexists _, _. split; [reflexivity|]. split; [apply lookupProp_setProp_eq|].
  split; [apply revived_completedAt|].
  intros k Hk. by apply lookupProp_setProp_ne.
Qed.

End Revive.

(** X14.  Whatever the store holds, the initial state of [teams] is an
    array of objects, each with an array [milestones] of objects whose
    [completedAt] is a [Date] or [undefined], never the saved string: the
    initialiser lets no exception out and revives every completion time. *)
Theorem loadTeams_always_revived (store : gmap string text) :
  exists l, loadTeams store = VArray l /\
    forall team, In team l ->
      exists props ms,
        team = VObject props /\ lookupProp "milestones" props = Some (VArray ms) /\
        forall m, In m ms ->
          exists mprops c,
            m = VObject mprops /\ lookupProp "completedAt" mprops = Some c /\
            (c = VUndefined \/ exists t, c = VDate t).
Proof.
  assert (Hempty : exists l, VArray [] = VArray l /\
    forall team, In team l ->
      exists props ms,
        team = VObject props /\ lookupProp "milestones" props = Some (VArray ms) /\
        forall m, In m ms ->
          exists mprops c,
            m = VObject mprops /\ lookupProp "completedAt" mprops = Some c /\
            (c = VUndefined \/ exists t, c = VDate t)).
  { exists []. split; [done|]. intros team []. }
  unfold loadTeams.
  destruct (store !! "teams") as [saved|]; [|exact Hempty].
  destruct (truthy_text saved); [|exact Hempty].
  destruct (parseTeams saved) as [v|] eqn:Hp; [|exact Hempty].
  unfold parseTeams in Hp.
  destruct (JSON_parse saved) as [parsed|]; [|discriminate Hp]. cbn in Hp.
  destruct (valueOfJSON parsed) as [| | | | | |l|]; try discriminate Hp.
  destruct (mapM reviveTeam l) as [l'|] eqn:Hl; [|discriminate Hp].
  cbn in Hp. injection Hp as <-.
  exists l'. split; [done|].
  apply mapM_Some in Hl.
  intros team (i & Hi)%list_elem_of_In%list_elem_of_lookup.
  destruct (Forall2_lookup_r _ _ _ _ _ Hl Hi) as (team0 & _ & Hrev).
  unfold reviveTeam in Hrev.
  destruct (getField team0 "milestones") as [ms0|]; [|discriminate Hrev].
  cbn in Hrev. destruct ms0 as [| | | | | |ms0|]; try discriminate Hrev.
  destruct (mapM reviveMilestone ms0) as [ms|] eqn:Hms; [|discriminate Hrev].
  cbn in Hrev. injection Hrev as <-.
  eexists _, ms. split; [reflexivity|]. split; [apply lookupProp_setProp_eq|].
  apply mapM_Some in Hms.
  intros m (j & Hj)%list_elem_of_In%list_elem_of_lookup.
  destruct (Forall2_lookup_r _ _ _ _ _ Hms Hj) as (m0 & _ & Hm).
  destruct (reviveMilestone_object _ _ Hm) as (mprops & c & -> & Hc & Hrc & _).
  by exists mprops, c.
Qed.

(** X15.  The inner callback of the initialiser changes [completedAt]
    only: every other property of the saved milestone is kept, and a
    milestone that was revived is revived to itself. *)
Theorem reviveMilestone_keeps_other_properties (m v : value) :
  reviveMilestone m = Some v ->
  (exists props,
     v = VObject props /\
     forall k, k <> "completedAt" -> lookupProp k props = lookupProp k (spread m)) /\
  reviveMilestone v = Some v.
Proof.
  intros Hr. split.
  - destruct (reviveMilestone_object _ _ Hr) as (props & c & -> & _ & _ & Hk).
    by exists props.
  - unfold reviveMilestone in Hr |- *.
    destruct (getField m "completedAt") as [c|]; [|discriminate Hr].
    cbn in Hr. injection Hr as <-.
    cbn [getField]. rewrite lookupProp_setProp_eq. cbn [default mbind option_bind spread].
    unfold id.
    destruct (revived_completedAt c) as [->|[t ->]]; cbn [truthy newDate];
      by rewrite setProp_setProp.
Qed.

Lemma reviveMilestone_keeps_other_properties_witness :
  reviveMilestone
    (VObject [("id", VNumber 1); ("completed", VBool true);
              ("completedAt", VString "1970-01-01T00:00:11.000Z")])
  = Some (VObject [("id", VNumber 1); ("completed", VBool true);
                   ("completedAt", VDate (Some 11000))]) /\
  reviveMilestone
    (VObject [("id", VNumber 1); ("completed", VBool true);
              ("completedAt", VDate (Some 11000))])
  = Some (VObject [("id", VNumber 1); ("completed", VBool true);
                   ("completedAt", VDate (Some 11000))]).
Proof.
  assert (Hr : reviveMilestone
    (VObject [("id", VNumber 1); ("completed", VBool true);
              ("completedAt", VString "1970-01-01T00:00:11.000Z")])
  = Some (VObject [("id", VNumber 1); ("completed", VBool true);
                   ("completedAt", VDate (Some 11000))]))
    by (vm_compute; reflexivity).
  split; [exact Hr|].
  exact (proj2 (reviveMilestone_keeps_other_properties _ _ Hr)).
Defined.

(** X16.  In every reachable world the leaderboard is in rank order: a
    team never ranks before a team that is shown above it. *)
Theorem leaderboard_in_rank_order (w : World) (i j : nat) (a b : Team.t) :
  reachable w -> (i < j)%nat ->
  sortedTeams (teams (st w)) !! i = Some a ->
  sortedTeams (teams (st w)) !! j = Some b ->
  ~ ranksBefore b a.
Proof.
  intros Hw Hij Ha Hb.
  pose proof (reachable_leaderboard_sorted w Hw) as Hs.
  revert i j Hij Ha Hb.
  induction Hs as [|x l Hs IH Hx]; intros i j Hij Ha Hb; [by destruct i|].
  destruct j as [|j]; [lia|]. cbn in Hb.
  destruct i as [|i]; cbn in Ha.
  - injection Ha as ->. rewrite List.Forall_forall in Hx. apply Hx.
    apply list_elem_of_In, list_elem_of_lookup. eauto.
  - apply (IH i j); [lia|done..].
Qed.

Lemma leaderboard_in_rank_order_witness :
  reachable scenarioWorld /\ (0 < 1)%nat /\
  sortedTeams (teams (st scenarioWorld)) !! 0%nat = Some scenarioAlpha /\
  sortedTeams (teams (st scenarioWorld)) !! 1%nat = Some scenarioBeta /\
  ~ ranksBefore scenarioBeta scenarioAlpha.
Proof.
  assert (Ha : sortedTeams (teams (st scenarioWorld)) !! 0%nat = Some scenarioAlpha)
    by (rewrite scenarioWorld_leaderboard; reflexivity).
  assert (Hb : sortedTeams (teams (st scenarioWorld)) !! 1%nat = Some scenarioBeta)
    by (rewrite scenarioWorld_leaderboard; reflexivity).
  split; [apply scenarioWorld_reachable|]. split; [lia|].
  split; [exact Ha|]. split; [exact Hb|].
  apply (leaderboard_in_rank_order scenarioWorld 0 1 _ _ scenarioWorld_reachable);
    [lia|exact Ha|exact Hb].
Defined.

Section Sounds.

Lemma react_muteAudio e w :
  leavesMute e = true -> muteAudio (st (react e w)) = muteAudio (st w).
Proof.
  destruct e; cbn [leavesMute react]; intros He; try discriminate He.
  - reflexivity.
  - destruct (JS.truthy_string (JS.trim (newTeamName (st w)))) eqn:Hname;
      [cbn; unfold addTeam; by rewrite Hname|reflexivity].
  - reflexivity.
  - destruct (timerStarted (st w)); reflexivity.
  - reflexivity.
  - by destruct (timerStarted (st w)).
  - reflexivity.
Qed.

Lemma react_played e w :
  played (react e w)
  = played w ++ (if isToggle e && negb (muteAudio (st w))
                 then ["/level-up.mp3"] else []).
Proof.
  destruct e; cbn [isToggle react andb]; rewrite ?app_nil_r.
  - reflexivity.
  - by destruct (JS.truthy_string _).
  - destruct (muteAudio (st w)); cbn; by rewrite ?app_nil_r.
  - by destruct (timerStarted (st w)).
  - reflexivity.
  - by destruct (timerStarted (st w)).
  - reflexivity.
  - reflexivity.
Qed.

End Sounds.

(** X17.  As long as the mute switch is left alone, the component plays
    one sound for every call of [toggleMilestone] when the sound is on,
    whether or not the identifiers reference anything, and none when it is
    muted; nothing else plays a sound, and a reset does not unmute. *)
Theorem sounds_follow_toggles (es : list event) (w : World) :
  forallb leavesMute es = true ->
  played (run es w)
  = played w ++ (if muteAudio (st w) then []
                 else repeat "/level-up.mp3" (length (filter isToggle es))).
Proof.
  revert w. induction es as [|e es IH]; intros w Hes.
  - cbn. by destruct (muteAudio (st w)); rewrite app_nil_r.
  - cbn [forallb] in Hes. apply andb_true_iff in Hes as [He Hes].
    change (run (e :: es) w) with (run es (react e w)).
    rewrite (IH _ Hes), (react_muteAudio _ _ He), react_played.
    destruct (muteAudio (st w)); rewrite andb_comm; cbn [negb andb].
    + by rewrite !app_nil_r.
    + rewrite <- app_assoc. f_equal.
      rewrite filter_cons. by destruct (isToggle e).
Qed.

Lemma sounds_follow_toggles_witness :
  forallb leavesMute
    [ToggleMilestone 31000 "1" 3; ResetData; ToggleMilestone 32000 "9" 9] = true /\
  played (run [ToggleMilestone 31000 "1" 3; ResetData; ToggleMilestone 32000 "9" 9]
              scenarioWorld)
  = played scenarioWorld
    ++ (if muteAudio (st scenarioWorld) then []
        else repeat "/level-up.mp3"
               (length (filter isToggle
                  [ToggleMilestone 31000 "1" 3; ResetData;
                   ToggleMilestone 32000 "9" 9]))).
Proof.
  assert (H : forallb leavesMute
    [ToggleMilestone 31000 "1" 3; ResetData; ToggleMilestone 32000 "9" 9] = true)
    by reflexivity.
  split; [exact H|]. exact (sounds_follow_toggles _ scenarioWorld H).
Defined.



(** X19.  Every team has exactly one card and every card one row for
    each milestone of its team, in the order of the milestones; the notice
    of an empty board is shown exactly when there is no card. *)
Theorem one_card_per_team (s : State) :
  length (view_cards (render s)) = length (teams s) /\
  (view_empty (render s) = true <-> view_cards (render s) = []) /\
  (forall i card, view_cards (render s) !! i = Some card ->
     exists team, sortedTeams (teams s) !! i = Some team /\
       card_key card = Team.id team /\ card_title card = Team.name team /\
       map row_key (card_rows card) = map Milestone.id (Team.milestones team) /\
       map row_done (card_rows card) = map Milestone.completed (Team.milestones team)).
Proof.
  assert (Hlen : length (view_cards (render s)) = length (teams s)).
  { cbn [render view_cards]. rewrite length_imap.
    apply Permutation_length, sortedTeams_Permutation. }
  split; [exact Hlen|]. split.
  - cbn [render view_empty]. rewrite Nat.eqb_eq, <- Hlen.
    split; [apply nil_length_inv|by intros ->].
  - cbn [render view_cards]. intros i card Hc.
    rewrite list_lookup_imap in Hc.
    destruct (sortedTeams (teams s) !! i) as [team|]; [|discriminate Hc].
    cbn in Hc. injection Hc as <-. exists team. split; [done|].
    cbn [renderCard card_key card_title card_rows].
    rewrite !map_map. by repeat split.
Qed.
